(** * pacbuilder: a verification development for [pacbuilder.py]

    The program builds a proxy auto-configuration file in five stages:
    parse the allow list, fetch the pre-selected destinations, deduplicate,
    render the template and validate the outcome.  Every stage of
    [pacbuilder.py] is embedded below as a Rocq function of the same name.

    Modelling conventions.
    - A Python [str] is a [string]; a character is a code point below 256,
      so [str.lower], [str.strip] and [str.splitlines] are the restrictions
      of the Python methods to U+0000..U+00FF.
    - A Python [set] of strings is a [gset string]; a Python [list] is a
      [list].
    - What a function prints on [sys.stderr], and the calls it makes into
      the outside world, are collected in a trace of events; [sys.exit] and
      exceptions are outcomes of a small writer/exit monad.
    - The file system, the network and the [node] executable are oracles
      gathered in a record [world]; they say, too, which of the calls
      into them raise an exception.
    - Paths are POSIX paths, and [str(Path(s))] is computed as [pathlib]
      does for them. *)

From Stdlib Require Import Ascii String NArith ZArith Lia Bool DecimalString.
From stdpp Require Import base list strings sets gmap sorting.

Local Open Scope list_scope.

(** ** Characters *)

Module Char.

Definition code (c : ascii) : N := N_of_ascii c.

Definition in_range (lo hi c : ascii) : bool :=
  (code lo <=? code c)%N && (code c <=? code hi)%N.

Definition dquote : ascii := "034".
Definition squote : ascii := "039".
Definition tab : ascii := "009".
Definition newline : ascii := "010".
Definition backslash : ascii := "092".

(** [str.isspace] on one character: the white space that [str.strip]
    removes. *)
Definition isspace (c : ascii) : bool :=
  in_range "009" "013" c || in_range "028" "032" c
  || Ascii.eqb c "133" || Ascii.eqb c "160".

(** [str.lower] on one character: [A-Z], and the capital letters of the
    Latin-1 supplement U+00C0..U+00DE but for the multiplication sign. *)
Definition lower (c : ascii) : ascii :=
  if in_range "A" "Z" c
     || (in_range "192" "222" c && negb (Ascii.eqb c "215"))
  then ascii_of_N (code c + 32)
  else c.

(** The characters at which [str.splitlines] breaks a text. *)
Definition is_linebreak (c : ascii) : bool :=
  in_range "010" "013" c || in_range "028" "030" c || Ascii.eqb c "133".

End Char.

(** ** Strings: the [str] methods the program calls *)

Module Str.

Definition chars : string -> list ascii := list_ascii_of_string.
Definition of_chars : list ascii -> string := string_of_list_ascii.

Definition is_empty (s : string) : bool :=
  match s with "" => true | _ => false end.

(** [s.lower()] *)
Fixpoint lower (s : string) : string :=
  match s with
  | "" => ""
  | String c t => String (Char.lower c) (lower t)
  end.

(** [s.lstrip()] *)
Fixpoint lstrip (s : string) : string :=
  match s with
  | "" => ""
  | String c t => if Char.isspace c then lstrip t else s
  end.

(** [s.rstrip()] *)
Fixpoint rstrip (s : string) : string :=
  match s with
  | "" => ""
  | String c t =>
      let t' := rstrip t in
      if is_empty t' && Char.isspace c then "" else String c t'
  end.

(** [s.strip()] *)
Definition strip (s : string) : string := rstrip (lstrip s).

(** [s.startswith(p)] *)
Definition startswith (p s : string) : bool := String.prefix p s.

(** [s[n:]] *)
Fixpoint drop (n : nat) (s : string) : string :=
  match n, s with
  | S n', String _ t => drop n' t
  | _, _ => s
  end.

(** [sep.join(l)] *)
Fixpoint join (sep : string) (l : list string) : string :=
  match l with
  | [] => ""
  | [s] => s
  | s :: t => s +:+ sep +:+ join sep t
  end.

(** [needle in s] *)
Fixpoint contains (needle s : string) : bool :=
  String.prefix needle s ||
  match s with
  | "" => false
  | String _ t => contains needle t
  end.

(** The lines a text file yields when it is iterated in text mode:
    universal newlines, so a line ends at a line feed, at a carriage
    return, or at the two together, and it keeps one line feed as its
    terminator. [cur] is the line read so far, in reverse. *)
Fixpoint readlines_go (cur : string) (s : string) : list string :=
  match s with
  | "" => if is_empty cur then [] else [String.rev cur]
  | String c t =>
      if Ascii.eqb c "010" then
        String.rev (String "010" cur) :: readlines_go "" t
      else if Ascii.eqb c "013" then
        match t with
        | String c' t' =>
            if Ascii.eqb c' "010"
            then String.rev (String "010" cur) :: readlines_go "" t'
            else String.rev (String "010" cur) :: readlines_go "" t
        | "" => [String.rev (String "010" cur)]
        end
      else readlines_go (String c cur) t
  end.
Definition readlines (s : string) : list string := readlines_go "" s.

(** [s.splitlines()]: the terminators are dropped, and a carriage return
    followed by a line feed is one terminator. *)
Fixpoint splitlines_go (cur : string) (s : string) : list string :=
  match s with
  | "" => if is_empty cur then [] else [String.rev cur]
  | String c t =>
      if Ascii.eqb c "013" then
        match t with
        | String c' t' =>
            if Ascii.eqb c' "010"
            then String.rev cur :: splitlines_go "" t'
            else String.rev cur :: splitlines_go "" t
        | "" => [String.rev cur]
        end
      else if Char.is_linebreak c then String.rev cur :: splitlines_go "" t
      else splitlines_go (String c cur) t
  end.
Definition splitlines (s : string) : list string := splitlines_go "" s.

(** [s.endswith(c)] for one character *)
Definition endswith_char (c : ascii) (s : string) : bool :=
  match String.rev s with
  | String c' _ => Ascii.eqb c' c
  | "" => false
  end.

(** [s.split(sep)] for one character; [cur] is the piece read so far, in
    reverse. *)
Fixpoint split_go (sep : ascii) (cur : string) (s : string) : list string :=
  match s with
  | "" => [String.rev cur]
  | String c t =>
      if Ascii.eqb c sep then String.rev cur :: split_go sep "" t
      else split_go sep (String c cur) t
  end.
Definition split (sep : ascii) (s : string) : list string := split_go sep "" s.

End Str.

(** ** Paths: what [pathlib.Path] does to the text of a POSIX path *)

Module Path.

(** The root of a path: two leading slashes are kept, one slash and three
    or more are one slash. *)
Definition root (s : string) : string :=
  if Str.startswith "///" s then "/"
  else if Str.startswith "//" s then "//"
  else if Str.startswith "/" s then "/"
  else "".

(** The components of a path: empty components and [.] are dropped. *)
Definition parts (s : string) : list string :=
  filter (fun c => c ≠ "" ∧ c ≠ ".") (Str.split "/" s).

(** [str(Path(s))] *)
Definition str (s : string) : string :=
  let r := root s +:+ Str.join "/" (parts s) in
  if Str.is_empty r then "." else r.

(** [str(Path(a) / b)], by [os.path.join]: a second path that is absolute
    replaces the first. *)
Definition join (a b : string) : string :=
  if Str.startswith "/" b then str b
  else if Str.is_empty a || Str.endswith_char "/" a then str (a +:+ b)
  else str (a +:+ "/" +:+ b).

End Path.

(** ** Regular expressions

    The fragment of Python's [re] syntax that the two patterns of the
    program are written in.  A pattern is matched by backtracking; since
    the program only asks whether a match exists, the matcher below returns
    every position at which a match of the pattern may end, the longest
    repetition first. *)

Module Re.

(** One item of a bracketed character set. *)
Inductive item : Type :=
| Range (lo hi : ascii)   (* [lo-hi] *)
| Chr (c : ascii).        (* a single (possibly escaped) character *)

Definition item_mem (c : ascii) (i : item) : bool :=
  match i with
  | Range lo hi => Char.in_range lo hi c
  | Chr c' => Ascii.eqb c c'
  end.

Definition cls_mem (k : list item) (c : ascii) : bool :=
  existsb (item_mem c) k.

Inductive regex : Type :=
| Bol                                          (* ^ *)
| Eol                                          (* $ *)
| Cls (k : list item)                          (* [...] , or one literal *)
| Seq (r1 r2 : regex)                          (* r1 r2 *)
| Star (r : regex)                             (* ( r )* *)
| Rep (r : regex) (lo : nat) (hi : option nat) (* r{lo,hi} and r{lo,} *)
| NotAhead (r : regex)                         (* (?! r ) *)
| NotBehind (k : list item).                   (* (?<! c ) , one character wide *)

Definition Lit (c : ascii) : regex := Cls [Chr c].

(** A position in the subject: the characters before it, nearest first,
    and the characters after it. *)
Definition pos : Type := list ascii * list ascii.

(** Exactly [n] rounds of [step]. *)
Fixpoint exactly (step : pos -> list pos) (n : nat) (p : pos) : list pos :=
  match n with
  | O => [p]
  | S n' => flat_map (exactly step n') (step p)
  end.

(** At most [n] rounds of [step], the greedy alternative first. *)
Fixpoint upto (step : pos -> list pos) (n : nat) (p : pos) : list pos :=
  match n with
  | O => [p]
  | S n' => flat_map (upto step n') (step p) ++ [p]
  end.

(** The positions at which a match of [r] that starts at [p] may end.
    An unbounded repetition is tried for as many rounds as characters
    remain: a round that consumes nothing reaches no new position.
    [$] holds at the end of the subject and before a line feed that is
    its last character. *)
Fixpoint ends (r : regex) (p : pos) : list pos :=
  match r with
  | Bol => match p.1 with [] => [p] | _ => [] end
  | Eol =>
      match p.2 with
      | [] => [p]
      | [c] => if Ascii.eqb c Char.newline then [p] else []
      | _ => []
      end
  | Cls k =>
      match p.2 with
      | c :: a => if cls_mem k c then [(c :: p.1, a)] else []
      | [] => []
      end
  | Seq r1 r2 => flat_map (ends r2) (ends r1 p)
  | Star r => upto (ends r) (length p.2) p
  | Rep r lo (Some hi) =>
      flat_map (upto (ends r) (hi - lo)) (exactly (ends r) lo p)
  | Rep r lo None =>
      flat_map (fun q => upto (ends r) (length q.2) q) (exactly (ends r) lo p)
  | NotAhead r => match ends r p with [] => [p] | _ => [] end
  | NotBehind k =>
      match p.1 with
      | c :: _ => if cls_mem k c then [] else [p]
      | [] => [p]
      end
  end.

(** [bool(r.match(s))] *)
Definition matches (r : regex) (s : string) : bool :=
  match ends r ([], Str.chars s) with [] => false | _ => true end.

(** [r.findall(s)] for a pattern that is one character set: every
    character of [s] in the set, in order. *)
Definition findall (k : list item) (s : string) : list ascii :=
  filter (fun c => cls_mem k c = true) (Str.chars s).

End Re.

Import Re.
Infix "+>" := Seq (at level 60, right associativity).

(** ** The constants of [pacbuilder.py] *)

Definition ZSCALER_DRDB_URL : string :=
  "https://dll7xpq8c5ev0.cloudfront.net/drdb.txt".

(** [[A-Za-z0-9-]] *)
Definition LDH : list item :=
  [Range "A" "Z"; Range "a" "z"; Range "0" "9"; Chr "-"].

(** [[A-Za-z]] *)
Definition ALPHA : list item := [Range "A" "Z"; Range "a" "z"].

(** [^(?!-)[A-Za-z0-9-]{1,63}(?<!-)(\.[A-Za-z0-9-]{1,63})*\.[A-Za-z]{2,}$] *)
Definition DOMAIN_RE : regex :=
  Bol +> NotAhead (Lit "-") +> Rep (Cls LDH) 1 (Some 63) +> NotBehind [Chr "-"] +>
  Star (Lit "." +> Rep (Cls LDH) 1 (Some 63)) +>
  Lit "." +> Rep (Cls ALPHA) 2 None +> Eol.

(** The character set of [INVALID_CHARS_RE], in the order of the source:
    double quote, single quote, [,;:!@#$%^&*()+=], the two brackets,
    [{}<>|], the backslash, [~], the backquote, the space and the tab. *)
Definition INVALID_CHARS_RE : list item :=
  map Chr
    [Char.dquote; Char.squote; ","; ";"; ":"; "!"; "@"; "#"; "$"; "%"; "^";
     "&"; "*"; "("; ")"; "+"; "="; "["; "]"; "{"; "}"; "<"; ">"; "|";
     Char.backslash; "~"; "`"; " "; Char.tab]%char.

(** ** Effects: the trace, [sys.exit] and exceptions *)

(** The exception classes the program tells apart, and the one class of
    network errors that is neither a [URLError] nor an [OSError]. *)
Inductive exn : Type :=
| URLError (reason : string)        (* urllib.error.URLError, HTTPError *)
| OSError (reason : string)         (* OSError: time-outs, refused or reset connections *)
| HTTPException (reason : string)   (* http.client.HTTPException: IncompleteRead, BadStatusLine *)
| OtherException (name : string).   (* any other class: ValueError, UnicodeDecodeError, ... *)

(** What [urlopen] followed by [read] and [decode] gives for a URL. *)
Inductive reply : Type :=
| Body (text : string)
| Fails (e : exn).

(** The two command lines [validate_pac] runs. *)
Inductive node_cmd : Type :=
| NodeCheck (pac_content : string)         (* node --check -e <pac> *)
| NodeNewFunction (pac_content : string).  (* node -e "new Function(<repr of pac>)" *)

(** What [subprocess.run] gives for a command line. *)
Inductive run_result : Type :=
| Completed (returncode : Z) (stderr : string)
| FileNotFoundError
| TimeoutExpired
| RunRaises (e : exn).   (* any other exception: ValueError for a NUL in the
                            command line, OSError for one that is too long *)

(** A line printed on [sys.stderr]. *)
Inductive message : Type :=
| ErrAllowListNotFound (path : string)
    (* Error: allow list not found: <path> *)
| WarnInvalidChars (lineno : nat) (bad_chars raw_line : string)
    (* Warning: skipping line <n> - contains invalid characters (<bad>): <raw> *)
| WarnInvalidDomain (lineno : nat) (raw_line : string)
    (* Warning: skipping invalid domain on line <n>: <raw> *)
| ErrNoValidDomains
    (* Error: allow list contains no valid domains *)
| WarnFetchFailed (e : exn)
    (* Warning: could not fetch Zscaler pre-selected destinations: <exc> *)
| ValMissingFunction
    (* Validation error: missing FindProxyForURL function *)
| ValNoDirect
    (* Validation error: no DIRECT return found *)
| ValNoProxy
    (* Validation error: no PROXY return found *)
| ValNode (stderr : string)
    (* Validation error (node): <stderr> *)
| NodePassed
    (* PAC file passed Node.js syntax validation *)
| NoteNodeNotFound
    (* Note: node not found, skipping JavaScript syntax validation *)
| WarnNodeTimeout
    (* Warning: node validation timed out *)
| Loaded (n : nat) (path : string)
    (* Loaded <n> domain(s) from <path> *)
| Removed (removed : list string)
    (* Removed <n> domain(s) already in Zscaler pre-selected list: <a, b, ...> *)
| ErrAllRemoved
    (* Error: all domains were removed by deduplication - nothing to add to PAC file *)
| ErrValidationFailed
    (* Error: PAC file validation failed *)
| Generated (path : string) (n : nat).
    (* Generated <path> with <n> domain(s) *)

(** The functions [main] calls. *)
Inductive stage : Type :=
| ParseAllowList | FetchZscalerPreselected | Deduplicate | RenderPac | ValidatePac.

(** What a run does that can be observed, in the order it happens. *)
Inductive event : Type :=
| Stderr (m : message)                (* print(..., file=sys.stderr) *)
| UrlOpen (url : string)              (* urllib.request.urlopen *)
| RunNode (cmd : node_cmd)            (* subprocess.run(["node", ...]) *)
| GetTemplate (dir : string)          (* env.get_template("proxy.pac.j2") *)
| FileWrite (path content : string)   (* output_path.write_text(content) *)
| Call (f : stage).                   (* main calls f *)

Global Instance exn_eq_dec : EqDecision exn.
Proof. solve_decision. Defined.
Global Instance node_cmd_eq_dec : EqDecision node_cmd.
Proof. solve_decision. Defined.
Global Instance message_eq_dec : EqDecision message.
Proof. solve_decision. Defined.
Global Instance stage_eq_dec : EqDecision stage.
Proof. solve_decision. Defined.
Global Instance event_eq_dec : EqDecision event.
Proof. solve_decision. Defined.

(** How a computation ends. *)
Inductive outcome (A : Type) : Type :=
| Val (a : A)          (* it returns a *)
| Exit (code : Z)      (* sys.exit(code) *)
| Raise (e : exn).     (* an exception leaves it *)
Global Arguments Val {A} a.
Global Arguments Exit {A} code.
Global Arguments Raise {A} e.

(** A computation: the events it produced and how it ended. *)
Definition M (A : Type) : Type := list event * outcome A.

Global Instance M_ret : MRet M := fun A a => ([], Val a).
Global Instance M_bind : MBind M := fun A B f m =>
  match m.2 with
  | Val a => (m.1 ++ (f a).1, (f a).2)
  | Exit c => (m.1, Exit c)
  | Raise e => (m.1, Raise e)
  end.

Definition emit (e : event) : M unit := ([e], Val tt).
Definition print (m : message) : M unit := emit (Stderr m).
Definition sys_exit {A} (code : Z) : M A := ([], Exit code).
Definition raise {A} (e : exn) : M A := ([], Raise e).

(** The exit status the operating system sees. *)
Definition exit_status {A} (m : M A) : Z :=
  match m.2 with
  | Val _ => 0
  | Exit c => c
  | Raise _ => 1
  end.

(** The documents a trace writes to disk, in order. *)
Definition writes (t : list event) : list (string * string) :=
  omap (fun e => match e with FileWrite p c => Some (p, c) | _ => None end) t.

Definition written {A} (m : M A) : list (string * string) := writes m.1.

(** ** The outside world *)

(** What reading a regular file gives: its text, or the text of the lines
    that were read before opening or decoding raised an exception. *)
Inductive file : Type :=
| Readable (text : string)
| Unreadable (sofar : string) (e : exn).

Record world : Type := {
  (** the regular file at a path, if there is one *)
  files : string -> option file;
  (** what a GET of a URL gives *)
  urlopen : string -> reply;
  (** what running [node] gives *)
  node : node_cmd -> run_result;
  (** the rendering of the [proxy.pac.j2] found in a directory, if any *)
  templates : string -> option (list string -> string);
  (** the exception with which opening a path for writing fails, if it
      does: a directory that is missing or may not be written to *)
  write_error : string -> option exn;
  (** the directory of the script, [Path(__file__).resolve().parent] *)
  script_dir : string
}.

(** The command line after [argparse]. *)
Record arguments : Type := {
  allow_list : string;
  output : string;
  template_dir : option string;
  skip_dedup : bool;
  skip_validation : bool
}.

(** [Path(args.allow_list)] and [Path(args.output)], as text. *)
Definition allow_list_path (args : arguments) : string :=
  Path.str (allow_list args).
Definition output_path (args : arguments) : string :=
  Path.str (output args).

(** ** [_check_invalid_chars] *)

(** The order of [sorted] on characters. *)
Definition char_le (a b : ascii) : Prop := (Char.code a <= Char.code b)%N.
Global Instance char_le_dec : RelDecision char_le.
Proof. intros a b. unfold char_le. apply _. Defined.

(** The description of one offending character. *)
Definition describe_char (ch : ascii) : string :=
  if Ascii.eqb ch Char.dquote then
    "double quote (" +:+ String Char.dquote ")"
  else if Ascii.eqb ch Char.squote then
    "single quote (" +:+ String Char.squote ")"
  else if Ascii.eqb ch "," then "comma (,)"
  else if Ascii.eqb ch " " then "space"
  else if Ascii.eqb ch Char.tab then "tab"
  else String Char.squote (String ch (String Char.squote "")).

Definition _check_invalid_chars (line : string) : option string :=
  let found : gset ascii := list_to_set (findall INVALID_CHARS_RE line) in
  if decide (found = ∅) then None
  else
    let char_descriptions := map describe_char (merge_sort char_le (elements found)) in
    Some (Str.join ", " char_descriptions).

(** The truth value of a [str | None]. *)
Definition truthy (o : option string) : bool :=
  match o with
  | None => false
  | Some s => negb (Str.is_empty s)
  end.

(** ** [parse_allow_list] *)

(** The body of the loop over the lines of the file: [domains] is the list
    built so far, [lineno] the number of the line [raw_line]. *)
Definition parse_line (lineno : nat) (raw_line : string) (domains : list string)
  : M (list string) :=
  let line := Str.lower (Str.strip raw_line) in
  if Str.is_empty line || Str.startswith "#" line then mret domains
  else
    let bad_chars := _check_invalid_chars line in
    if truthy bad_chars then
      print (WarnInvalidChars lineno (default "" bad_chars) (Str.rstrip raw_line));;
      mret domains
    else if negb (matches DOMAIN_RE line) then
      print (WarnInvalidDomain lineno (Str.rstrip raw_line));;
      mret domains
    else mret (domains ++ [line]).

Fixpoint parse_lines (lineno : nat) (lines : list string) (domains : list string)
  : M (list string) :=
  match lines with
  | [] => mret domains
  | raw_line :: rest =>
      domains' ← parse_line lineno raw_line domains;
      parse_lines (S lineno) rest domains'
  end.

(** [sorted(set(l))] *)
Definition sorted_set (l : list string) : list string :=
  merge_sort String.le (elements (list_to_set l : gset string)).

Definition parse_allow_list (w : world) (path : string) : M (list string) :=
  match files w path with
  | None =>
      print (ErrAllowListNotFound path);;
      sys_exit 1
  | Some (Unreadable sofar e) =>
      parse_lines 1 (Str.readlines sofar) [];;
      raise e
  | Some (Readable text) =>
      domains ← parse_lines 1 (Str.readlines text) [];
      let unique := sorted_set domains in
      match unique with
      | [] =>
          print ErrNoValidDomains;;
          sys_exit 1
      | _ => mret unique
      end
  end.

(** ** [fetch_zscaler_preselected] *)

(** The body of the loop over the lines of the fetched text. *)
Definition drdb_line (domains : gset string) (raw : string) : gset string :=
  let line := Str.lower (Str.strip raw) in
  if Str.is_empty line || Str.startswith "#" line then domains
  else
    let line := if Str.startswith "*." line then Str.drop 2 line else line in
    if matches DOMAIN_RE line then domains ∪ {[ line ]} else domains.

Definition fetch_zscaler_preselected (w : world) (url : string) : M (gset string) :=
  emit (UrlOpen url);;
  match urlopen w url with
  | Fails (URLError r) =>
      print (WarnFetchFailed (URLError r));;
      mret ∅
  | Fails (OSError r) =>
      print (WarnFetchFailed (OSError r));;
      mret ∅
  | Fails e => raise e
  | Body text => mret (foldl drdb_line ∅ (Str.splitlines text))
  end.

(** ** [deduplicate] *)

Definition deduplicate (allow_list : list string) (zscaler_domains : gset string)
  : list string * list string :=
  foldl
    (fun '(kept, removed) domain =>
       if decide (domain ∈ zscaler_domains)
       then (kept, removed ++ [domain])
       else (kept ++ [domain], removed))
    ([], []) allow_list.

(** ** [render_pac] *)

Definition render_pac (w : world) (domains : list string) (template_dir : string)
  : M string :=
  emit (GetTemplate template_dir);;
  match templates w template_dir with
  | None => raise (OtherException "jinja2.exceptions.TemplateNotFound")
  | Some template => mret (template domains)
  end.

(** ** [validate_pac] *)

Definition dq (s : string) : string := String Char.dquote s.
Definition sq (s : string) : string := String Char.squote s.

Definition validate_pac (w : world) (pac_content : string) : M bool :=
  if negb (Str.contains "function FindProxyForURL" pac_content) then
    print ValMissingFunction;;
    mret false
  else if negb (Str.contains (dq "DIRECT" +:+ String Char.dquote "") pac_content)
          && negb (Str.contains (sq "DIRECT" +:+ String Char.squote "") pac_content) then
    print ValNoDirect;;
    mret false
  else if negb (Str.contains (dq "PROXY") pac_content)
          && negb (Str.contains (sq "PROXY") pac_content) then
    print ValNoProxy;;
    mret false
  else
    emit (RunNode (NodeCheck pac_content));;
    match node w (NodeCheck pac_content) with
    | FileNotFoundError =>
        print NoteNodeNotFound;;
        mret true
    | TimeoutExpired =>
        print WarnNodeTimeout;;
        mret true
    | RunRaises e => raise e
    | Completed returncode _ =>
        if decide (returncode ≠ 0%Z) then
          emit (RunNode (NodeNewFunction pac_content));;
          match node w (NodeNewFunction pac_content) with
          | FileNotFoundError =>
              print NoteNodeNotFound;;
              mret true
          | TimeoutExpired =>
              print WarnNodeTimeout;;
              mret true
          | RunRaises e => raise e
          | Completed returncode' stderr' =>
              if decide (returncode' ≠ 0%Z) then
                print (ValNode (Str.strip stderr'));;
                mret false
              else
                print NodePassed;;
                mret true
          end
        else
          print NodePassed;;
          mret true
    end.

(** ** [main]

    The body of [main] after the command line is read, in three parts:
    step 2 ([main_dedup]), steps 3 to 5 ([main_publish]), and [main], which
    runs step 1 and then the two. *)

(** [Path(args.template_dir) if args.template_dir else script_dir / "templates"] *)
Definition template_dir_of (w : world) (args : arguments) : string :=
  match template_dir args with
  | Some d => if Str.is_empty d then Path.join (script_dir w) "templates"
              else Path.str d
  | None => Path.join (script_dir w) "templates"
  end.

(** Step 2, the block under [if not args.skip_dedup]; the value is the
    list [domains] stands for when the block is left. *)
Definition main_dedup (w : world) (args : arguments) (domains : list string)
  : M (list string) :=
  if negb (skip_dedup args) then
    emit (Call FetchZscalerPreselected);;
    zscaler_domains ← fetch_zscaler_preselected w ZSCALER_DRDB_URL;
    if decide (zscaler_domains ≠ ∅) then
      emit (Call Deduplicate);;
      let '(domains, removed) := deduplicate domains zscaler_domains in
      (match removed with
       | [] => mret tt
       | _ => print (Removed removed)
       end);;
      match domains with
      | [] =>
          print ErrAllRemoved;;
          sys_exit 1
      | _ => mret domains
      end
    else mret domains
  else mret domains.

(** Steps 3 to 5: render, validate, write.  [write_text] either raises
    before anything is on disk, or writes the document. *)
Definition main_publish (w : world) (args : arguments) (domains : list string)
  : M unit :=
  emit (Call RenderPac);;
  pac_content ← render_pac w domains (template_dir_of w args);
  (if negb (skip_validation args) then
     emit (Call ValidatePac);;
     ok ← validate_pac w pac_content;
     if negb ok then
       print ErrValidationFailed;;
       sys_exit 1
     else mret tt
   else mret tt);;
  match write_error w (output_path args) with
  | Some e => raise e
  | None =>
      emit (FileWrite (output_path args) pac_content);;
      print (Generated (output_path args) (length domains))
  end.

Definition main (w : world) (args : arguments) : M unit :=
  emit (Call ParseAllowList);;
  domains ← parse_allow_list w (allow_list_path args);
  print (Loaded (length domains) (allow_list_path args));;
  domains ← main_dedup w args domains;
  main_publish w args domains.

(** ** [deduplicate] on Python objects

    The same function over a store of objects, to account for what it
    does to the two objects it is handed: lists and sets live in the store
    and are passed by reference, [for domain in allow_list] reads the list
    through its reference at every round, and [append] updates an object in
    place. *)

Module Heap.

Definition loc : Type := nat.

Inductive obj : Type :=
| PyList (items : list string)
| PySet (members : gset string).

Abbreviation heap := (gmap loc obj).

(** [[]]: a new object at an address that is not in use. *)
Definition alloc (h : heap) (o : obj) : loc * heap :=
  let l := fresh (dom h) in (l, <[l := o]> h).

(** [l.append(x)] *)
Definition append (h : heap) (l : loc) (x : string) : option heap :=
  match h !! l with
  | Some (PyList items) => Some (<[l := PyList (items ++ [x])]> h)
  | _ => None
  end.

(** The loop, from index [i] on; [None] is a type error or the end of the
    fuel. *)
Fixpoint for_loop (fuel i : nat) (allow_list zscaler_domains kept removed : loc)
    (h : heap) : option heap :=
  match fuel with
  | O => None
  | S fuel' =>
      match h !! allow_list, h !! zscaler_domains with
      | Some (PyList items), Some (PySet members) =>
          match items !! i with
          | None => Some h
          | Some domain =>
              h' ← append h (if decide (domain ∈ members) then removed else kept) domain;
              for_loop fuel' (S i) allow_list zscaler_domains kept removed h'
          end
      | _, _ => None
      end
  end.

Definition deduplicate (h : heap) (allow_list zscaler_domains : loc)
  : option (heap * (loc * loc)) :=
  let '(kept, h1) := alloc h (PyList []) in
  let '(removed, h2) := alloc h1 (PyList []) in
  n ← match h !! allow_list with
      | Some (PyList items) => Some (length items)
      | _ => None
      end;
  h3 ← for_loop (S n) 0 allow_list zscaler_domains kept removed h2;
  Some (h3, (kept, removed)).

End Heap.

(** ** The template *)

Definition nl : string := String Char.newline "".

(** [{{ n }}] for a number. *)
Definition decimal (n : nat) : string :=
  DecimalString.NilEmpty.string_of_uint (Nat.to_uint n).

Definition indent : string := "        ".

(** Modelled from the spec: the template [templates/proxy.pac.j2], which
    is not among the sources.  The list literal is laid out as section 4.4
    of the specification and the tests of [render_pac] have it: one
    double-quoted entry per line, a comma after every entry but the last,
    the closing bracket on a line of its own. *)
Fixpoint entries (domains : list string) : string :=
  match domains with
  | [] => ""
  | d :: rest =>
      indent +:+ dq d +:+ String Char.dquote "" +:+
      (match rest with [] => "" | _ => "," end) +:+ nl +:+ entries rest
  end.

(** Modelled from the spec: the text of [templates/proxy.pac.j2] before the
    list literal, a comment with the number of domains and the head of the
    function (the tests of [render_pac] look for [Domain count: n] and for
    [FindProxyForURL]). *)
Definition pac_head (n : nat) : string :=
  "// Domain count: " +:+ decimal n +:+ nl +:+
  "function FindProxyForURL(url, host) {" +:+ nl.

(** Modelled from the spec: the text of [templates/proxy.pac.j2] after the
    list literal: [host], or a suffix of it, is looked up in the list, a
    match is answered with the proxy and anything else with a direct
    connection (section 4.4; the tests look for [PROXY 127.0.0.1:1]). *)
Definition pac_tail : string :=
  "    for (var i = 0; i < allowed.length; i++) {" +:+ nl +:+
  "        if (host === allowed[i] || dnsDomainIs(host, " +:+ dq "." +:+
  String Char.dquote " + allowed[i])) {" +:+ nl +:+
  "            return " +:+ dq "PROXY 127.0.0.1:1" +:+ String Char.dquote ";" +:+ nl +:+
  "        }" +:+ nl +:+
  "    }" +:+ nl +:+
  "    return " +:+ dq "DIRECT" +:+ String Char.dquote ";" +:+ nl +:+
  "}" +:+ nl.

(** Modelled from the spec: the rendering of [templates/proxy.pac.j2], which
    is not among the sources: the head, the list literal with the closing
    bracket on a line of its own, the tail.  The text ends with a line
    feed, which [keep_trailing_newline=True] keeps. *)
Definition proxy_pac_j2 (domains : list string) : string :=
  pac_head (length domains) +:+
  "    var allowed = [" +:+ nl +:+
  entries domains +:+
  "    ];" +:+ nl +:+
  pac_tail.

(** * Reading the branches of the loops

    Functions that say, line by line, what the loops of the program do.
    They are used to state the properties below. *)


(** What the loop body does with one raw line, read off its branches: the
    domain it appends, if any, and the warning it prints, if any. *)
Definition line_domain (raw_line : string) : option string :=
  let line := Str.lower (Str.strip raw_line) in
  if Str.is_empty line || Str.startswith "#" line then None
  else if truthy (_check_invalid_chars line) then None
  else if matches DOMAIN_RE line then Some line
  else None.

Definition line_warning (lineno : nat) (raw_line : string) : option message :=
  let line := Str.lower (Str.strip raw_line) in
  if Str.is_empty line || Str.startswith "#" line then None
  else if truthy (_check_invalid_chars line) then
    Some (WarnInvalidChars lineno (default "" (_check_invalid_chars line))
            (Str.rstrip raw_line))
  else if matches DOMAIN_RE line then None
  else Some (WarnInvalidDomain lineno (Str.rstrip raw_line)).

(** A line the parser passes over in silence: blank, or a comment. *)
Definition blank_or_comment (raw_line : string) : bool :=
  let line := Str.lower (Str.strip raw_line) in
  Str.is_empty line || Str.startswith "#" line.

Fixpoint warnings (lineno : nat) (lines : list string) : list message :=
  match lines with
  | [] => []
  | raw_line :: rest =>
      option_list (line_warning lineno raw_line) ++ warnings (S lineno) rest
  end.


(** ** The language of [DOMAIN_RE] *)

(** The match moves from [p] to [q] over the characters [w]. *)
Definition consumes (w : list ascii) (p q : pos) : Prop :=
  p.2 = w ++ q.2 ∧ q.1 = rev w ++ p.1.

(** [q] is reached from [p] in [n] rounds of [step]. *)
Fixpoint reach (step : pos -> list pos) (n : nat) (p q : pos) : Prop :=
  match n with
  | O => q = p
  | S n' => ∃ p', In p' (step p) ∧ reach step n' p' q
  end.

Definition in_cls (k : list item) (w : list ascii) : Prop :=
  Forall (fun c => cls_mem k c = true) w.

(** Labels, each with a dot before it. *)
Definition dotted (ws : list (list ascii)) : list ascii :=
  concat (map (cons "."%char) ws).

(** What [(\.[A-Za-z0-9-]{1,63})] matches after its dot. *)
Definition inner_label (w : list ascii) : Prop :=
  1 ≤ length w ≤ 63 ∧ in_cls LDH w.

(** The subjects [DOMAIN_RE] matches: a first label of 1 to 63 characters
    of [[A-Za-z0-9-]] with no hyphen at either end; any number of further
    labels of 1 to 63 characters of [[A-Za-z0-9-]]; a last label of two
    letters or more; then the end of the subject, or one line feed and the
    end. *)
Definition domain_re_lang (s : list ascii) : Prop :=
  ∃ first mids final tail,
    s = first ++ dotted mids ++ "."%char :: final ++ tail
    ∧ (tail = [] ∨ tail = [Char.newline])
    ∧ 1 ≤ length first ≤ 63 ∧ in_cls LDH first
    ∧ head first ≠ Some "-"%char ∧ last first ≠ Some "-"%char
    ∧ Forall inner_label mids
    ∧ 2 ≤ length final ∧ in_cls ALPHA final.

(** A character of a domain: one of [[A-Za-z0-9-]], or a dot. *)
Definition domain_char (c : ascii) : Prop :=
  cls_mem LDH c = true ∨ c = "."%char.

(** ** The grammar of the specification

    Section 4.1 in its own words, to compare [DOMAIN_RE] with: labels of 1
    to 63 characters of [[A-Za-z0-9-]], no hyphen at the start or the end
    of any label, at least two labels, a last label of letters only and of
    length two or more. *)

(** [cs.split(".")] *)
Fixpoint split_dots (cs : list ascii) : list (list ascii) :=
  match cs with
  | [] => [[]]
  | c :: t =>
      if Ascii.eqb c "." then [] :: split_dots t
      else match split_dots t with
           | w :: ws => (c :: w) :: ws
           | [] => [[c]]
           end
  end.

Definition is_hyphen (o : option ascii) : bool :=
  match o with Some c => Ascii.eqb c "-" | None => false end.

Definition spec_label (w : list ascii) : bool :=
  (1 <=? length w) && (length w <=? 63)
  && forallb (cls_mem LDH) w
  && negb (is_hyphen (head w)) && negb (is_hyphen (last w)).

Definition spec_final_label (w : list ascii) : bool :=
  (2 <=? length w) && forallb (cls_mem ALPHA) w.

Definition spec_domain_grammar (s : string) : bool :=
  let labels := split_dots (Str.chars s) in
  (2 <=? length labels)
  && forallb spec_label labels
  && from_option spec_final_label false (last labels).

(** ** Worlds to run the program in *)

(** One file on disk, the network as given, no [node], the template of the
    repository in every directory, and every path open for writing. *)
Definition one_file_world (path text : string) (net : string -> reply) : world :=
  {| files := fun p => if String.eqb p path then Some (Readable text) else None;
     urlopen := net;
     node := fun _ => FileNotFoundError;
     templates := fun _ => Some proxy_pac_j2;
     write_error := fun _ => None;
     script_dir := "/opt/pacbuilder" |}.

Definition offline : string -> reply := fun _ => Fails (URLError "unreachable").

(** The world of a test that wrote [text] to its file [allow.txt]. *)
Definition tmp (text : string) : world :=
  one_file_world "allow.txt" text offline.

(** [w] with another network. *)
Definition with_urlopen (net : string -> reply) (w : world) : world :=
  {| files := files w;
     urlopen := net;
     node := node w;
     templates := templates w;
     write_error := write_error w;
     script_dir := script_dir w |}.

(** [w] where reading the file at [path] stops with the exception [e]
    after the lines of [sofar]. *)
Definition with_unreadable (path sofar : string) (e : exn) (w : world) : world :=
  {| files := fun p => if String.eqb p path then Some (Unreadable sofar e)
                       else files w p;
     urlopen := urlopen w;
     node := node w;
     templates := templates w;
     write_error := write_error w;
     script_dir := script_dir w |}.

(** [w] with another [node]. *)
Definition with_node (nd : node_cmd -> run_result) (w : world) : world :=
  {| files := files w;
     urlopen := urlopen w;
     node := nd;
     templates := templates w;
     write_error := write_error w;
     script_dir := script_dir w |}.


(** The lines read from a file, to its end or to the exception. *)
Definition file_lines (f : file) : list string :=
  match f with
  | Readable text => Str.readlines text
  | Unreadable sofar _ => Str.readlines sofar
  end.

(** A computation that ends the process instead of returning. *)
Definition ends_process {A} (m : M A) : Prop :=
  ∀ a, m.2 ≠ Val a.

(** Lines of text, each ended by a line feed. *)
Definition text_of_lines (lines : list string) : string :=
  foldr (fun l t => l +:+ nl +:+ t) "" lines.

(** [n] times the character [c]. *)
Definition char_run (n : nat) (c : ascii) : string :=
  Str.of_chars (repeat c n).

(** ** Reading the branches of [fetch_zscaler_preselected] *)

(** The token a raw line of the fetched text adds to the set, if any. *)
Definition drdb_token (raw : string) : option string :=
  let line := Str.lower (Str.strip raw) in
  if Str.is_empty line || Str.startswith "#" line then None
  else
    let line := if Str.startswith "*." line then Str.drop 2 line else line in
    if matches DOMAIN_RE line then Some line else None.

(** The classes the handler of [fetch_zscaler_preselected] names. *)
Definition handled_error (e : exn) : bool :=
  match e with
  | URLError _ | OSError _ => true
  | HTTPException _ | OtherException _ => false
  end.

(** A network or transport failure: the classes of the handler, and the
    errors of the HTTP exchange itself, which are no [OSError]. *)
Definition network_error (e : exn) : bool :=
  match e with
  | URLError _ | OSError _ | HTTPException _ => true
  | OtherException _ => false
  end.

(** ** Reading the checks of [validate_pac] *)

Definition missing_function (pac_content : string) : bool :=
  negb (Str.contains "function FindProxyForURL" pac_content).

(** [DIRECT] occurs neither in double quotes nor in single quotes. *)
Definition missing_direct (pac_content : string) : bool :=
  negb (Str.contains (dq "DIRECT" +:+ String Char.dquote "") pac_content)
  && negb (Str.contains (sq "DIRECT" +:+ String Char.squote "") pac_content).

(** [PROXY] occurs neither after a double quote nor after a single
    quote. *)
Definition missing_proxy (pac_content : string) : bool :=
  negb (Str.contains (dq "PROXY") pac_content)
  && negb (Str.contains (sq "PROXY") pac_content).

(** ** Reading the trace of [main] *)

(** Step 5 of [main]: [write_text], which raises or writes, and the
    closing line. *)
Definition write_output (w : world) (args : arguments) (ds : list string)
    (pac : string) : M unit :=
  match write_error w (output_path args) with
  | Some e => ([], Raise e)
  | None =>
      ([FileWrite (output_path args) pac;
        Stderr (Generated (output_path args) (length ds))], Val tt)
  end.

(** The step of [main], 1 to 5, that an event belongs to: the calls of
    the step, what they ask of the outside world, and the lines they and
    [main] print during the step. *)
Definition event_step (e : event) : nat :=
  match e with
  | Call ParseAllowList => 1
  | Stderr (ErrAllowListNotFound _) | Stderr (WarnInvalidChars _ _ _)
  | Stderr (WarnInvalidDomain _ _) | Stderr ErrNoValidDomains
  | Stderr (Loaded _ _) => 1
  | Call FetchZscalerPreselected | UrlOpen _ | Stderr (WarnFetchFailed _)
  | Call Deduplicate | Stderr (Removed _) | Stderr ErrAllRemoved => 2
  | Call RenderPac | GetTemplate _ => 3
  | Call ValidatePac | RunNode _
  | Stderr ValMissingFunction | Stderr ValNoDirect | Stderr ValNoProxy
  | Stderr (ValNode _) | Stderr NodePassed | Stderr NoteNodeNotFound
  | Stderr WarnNodeTimeout | Stderr ErrValidationFailed => 4
  | FileWrite _ _ | Stderr (Generated _ _) => 5
  end.

(** The events of step 2 that come with a call of [deduplicate]: the call,
    the report of what was removed, the error that nothing is left. *)
Definition removal_event (e : event) : bool :=
  match e with
  | Call Deduplicate | Stderr (Removed _) | Stderr ErrAllRemoved => true
  | _ => false
  end.

(** ** Reading the list literal of the template *)

(** The line of the [i]-th of [n] entries: the domain in double quotes,
    a comma unless the entry is the last, a line feed. *)
Definition entry_line (n i : nat) (d : string) : string :=
  indent +:+ String Char.dquote d +:+ String Char.dquote "" +:+
  (if Nat.ltb (S i) n then "," else "") +:+ nl.

(** The lines of a list of entries, one after the other. *)
Definition entry_lines (domains : list string) : string :=
  foldr String.append "" (imap (entry_line (length domains)) domains).

(** ** Reading the deep check of [validate_pac] *)

(** [node] rejects a document: the syntax check ends with a status other
    than 0, and so does the parse with [new Function]. *)
Definition node_rejects (w : world) (pac_content : string) : bool :=
  match node w (NodeCheck pac_content) with
  | Completed returncode _ =>
      bool_decide (returncode ≠ 0%Z)
      && match node w (NodeNewFunction pac_content) with
         | Completed returncode' _ => bool_decide (returncode' ≠ 0%Z)
         | _ => false
         end
  | _ => false
  end.

(** The exception that a run of [node] raises past the two handlers of
    [validate_pac], if one does: the first run, or the second, which is
    made after a first run that ended with a status other than 0. *)
Definition node_raises (w : world) (pac_content : string) : option exn :=
  match node w (NodeCheck pac_content) with
  | RunRaises e => Some e
  | Completed returncode _ =>
      if bool_decide (returncode ≠ 0%Z) then
        match node w (NodeNewFunction pac_content) with
        | RunRaises e => Some e
        | _ => None
        end
      else None
  | _ => None
  end.

(** * Properties *)

(** ** The monad *)

Section monad.
Context {A B : Type}.
Implicit Types (m : M A) (f : A → M B).

Lemma bind_val m f a :
  m.2 = Val a → m ≫= f = (m.1 ++ (f a).1, (f a).2).
Proof. unfold mbind, M_bind. by intros ->. Qed.

Lemma bind_exit m f c : m.2 = Exit c → m ≫= f = (m.1, Exit c).
Proof. unfold mbind, M_bind. by intros ->. Qed.

Lemma bind_raise m f e : m.2 = Raise e → m ≫= f = (m.1, Raise e).
Proof. unfold mbind, M_bind. by intros ->. Qed.

(** The three laws. *)
Lemma bind_ret_l (a : A) f : mret a ≫= f = f a.
Proof. unfold mbind, M_bind, mret, M_ret. cbn. by destruct (f a). Qed.

Lemma bind_ret_r m : m ≫= mret = m.
Proof.
  unfold mbind, M_bind, mret, M_ret. destruct m as [t [a|c|e]]; cbn;
    by rewrite ?app_nil_r.
Qed.

Lemma bind_assoc {C} m f (g : B → M C) :
  (m ≫= f) ≫= g = m ≫= (fun a => f a ≫= g).
Proof.
  unfold mbind, M_bind. destruct m as [t [a|c|e]]; cbn; [|done..].
  destruct (f a) as [t' [b|c|e]]; cbn; [|done..].
  by rewrite app_assoc.
Qed.

(** What came before stays in the trace. *)
Lemma bind_trace_prefix m f : m.1 `prefix_of` (m ≫= f).1.
Proof.
  unfold mbind, M_bind. destruct (m.2); simpl; [by eexists|done..].
Qed.
End monad.

(** ** [deduplicate] *)

Section deduplicate.
Implicit Types (allow kept removed : list string) (zs : gset string).

Lemma deduplicate_foldl zs allow kept removed :
  foldl
    (fun '(kept, removed) domain =>
       if decide (domain ∈ zs)
       then (kept, removed ++ [domain])
       else (kept ++ [domain], removed))
    (kept, removed) allow
  = (kept ++ filter (fun d => d ∉ zs) allow,
     removed ++ filter (fun d => d ∈ zs) allow).
Proof.
  revert kept removed. induction allow as [|d allow IH]; intros kept removed.
  - by rewrite !app_nil_r.
  - cbn [foldl]. destruct (decide (d ∈ zs)) as [Hd|Hd]; rewrite IH.
    + rewrite (filter_cons_True (fun d => d ∈ zs)) by done.
      rewrite (filter_cons_False (fun d => d ∉ zs)) by (intros ?; done).
      by rewrite <- app_assoc.
    + rewrite (filter_cons_False (fun d => d ∈ zs)) by done.
      rewrite (filter_cons_True (fun d => d ∉ zs)) by done.
      by rewrite <- app_assoc.
Qed.

(** The loop computes the two filters of the allow list. *)
Lemma deduplicate_filter allow zs :
  deduplicate allow zs
  = (filter (fun d => d ∉ zs) allow, filter (fun d => d ∈ zs) allow).
Proof. unfold deduplicate. by rewrite deduplicate_foldl. Qed.

Lemma deduplicate_snoc allow zs d :
  deduplicate (allow ++ [d]) zs
  = if decide (d ∈ zs)
    then ((deduplicate allow zs).1, (deduplicate allow zs).2 ++ [d])
    else ((deduplicate allow zs).1 ++ [d], (deduplicate allow zs).2).
Proof.
  unfold deduplicate. rewrite foldl_app. cbn [foldl].
  destruct (foldl _ _ allow) as [k r]. done.
Qed.

End deduplicate.

Section heap.
Implicit Types (h : Heap.heap) (l : Heap.loc).

Lemma append_spec h l items x :
  h !! l = Some (Heap.PyList items) →
  Heap.append h l x = Some (<[l := Heap.PyList (items ++ [x])]> h).
Proof. unfold Heap.append. by intros ->. Qed.

(** The loop from index [length done] on: it ends, it has appended the
    rest of the list to the two new lists, and it has changed nothing
    else. *)
Lemma for_loop_spec (todo done_ : list string) zs la ls lk lr h kept removed :
  la ≠ lk → la ≠ lr → ls ≠ lk → ls ≠ lr → lk ≠ lr →
  h !! la = Some (Heap.PyList (done_ ++ todo)) →
  h !! ls = Some (Heap.PySet zs) →
  h !! lk = Some (Heap.PyList kept) →
  h !! lr = Some (Heap.PyList removed) →
  ∃ h', Heap.for_loop (S (length todo)) (length done_) la ls lk lr h = Some h'
    ∧ h' !! lk = Some (Heap.PyList (kept ++ (deduplicate todo zs).1))
    ∧ h' !! lr = Some (Heap.PyList (removed ++ (deduplicate todo zs).2))
    ∧ ∀ l, l ≠ lk → l ≠ lr → h' !! l = h !! l.
Proof.
  revert done_ h kept removed.
  induction todo as [|d todo IH]; intros done_ h kept removed ????? Ha Hs Hk Hr.
  - exists h. cbn [Heap.for_loop length]. rewrite Ha, Hs.
    rewrite lookup_ge_None_2 by (rewrite length_app; simpl; lia).
    rewrite !app_nil_r. done.
  - cbn [Heap.for_loop length]. rewrite Ha, Hs.
    rewrite lookup_app_r, Nat.sub_diag by lia. cbn [lookup list_lookup].
    rewrite deduplicate_filter. cbn [fst snd].
    destruct (decide (d ∈ zs)) as [Hd|Hd].
    + rewrite (append_spec _ _ _ _ Hr). cbn [mbind option_bind].
      destruct (IH (done_ ++ [d]) (<[lr := Heap.PyList (removed ++ [d])]> h)
                  kept (removed ++ [d])) as (h' & Hrun & Hk' & Hr' & Hfr);
        try done.
      * rewrite lookup_insert_ne by done. by rewrite <- app_assoc.
      * by rewrite lookup_insert_ne.
      * by rewrite lookup_insert_ne.
      * by rewrite lookup_insert_eq.
      * exists h'. rewrite length_app, Nat.add_1_r in Hrun.
        rewrite deduplicate_filter in Hk', Hr'. cbn [fst snd] in Hk', Hr'.
        split; [done|].
        rewrite (filter_cons_True (fun d => d ∈ zs)) by done.
        rewrite (filter_cons_False (fun d => d ∉ zs)) by (intros ?; done).
        rewrite <- app_assoc in Hr'. repeat split; try done.
        intros l ? ?. rewrite Hfr by done. by rewrite lookup_insert_ne.
    + rewrite (append_spec _ _ _ _ Hk). cbn [mbind option_bind].
      destruct (IH (done_ ++ [d]) (<[lk := Heap.PyList (kept ++ [d])]> h)
                  (kept ++ [d]) removed) as (h' & Hrun & Hk' & Hr' & Hfr);
        try done.
      * rewrite lookup_insert_ne by done. by rewrite <- app_assoc.
      * by rewrite lookup_insert_ne.
      * by rewrite lookup_insert_eq.
      * by rewrite lookup_insert_ne.
      * exists h'. rewrite length_app, Nat.add_1_r in Hrun.
        rewrite deduplicate_filter in Hk', Hr'. cbn [fst snd] in Hk', Hr'.
        split; [done|].
        rewrite (filter_cons_False (fun d => d ∈ zs)) by done.
        rewrite (filter_cons_True (fun d => d ∉ zs)) by done.
        rewrite <- app_assoc in Hk'. repeat split; try done.
        intros l ? ?. rewrite Hfr by done. by rewrite lookup_insert_ne.
Qed.
End heap.


(** ** [parse_allow_list] *)

Section parse.
Implicit Types (lines domains : list string) (raw : string).

Lemma parse_line_spec lineno raw domains :
  parse_line lineno raw domains
  = (Stderr <$> option_list (line_warning lineno raw),
     Val (domains ++ option_list (line_domain raw))).
Proof.
  unfold parse_line, line_warning, line_domain.
  destruct (Str.is_empty _ || Str.startswith _ _);
    [by rewrite app_nil_r|].
  destruct (truthy _); [by rewrite app_nil_r|].
  destruct (matches _ _); [done|by rewrite app_nil_r].
Qed.

(** The loop never leaves early: it returns the domains of all the
    lines, and prints the warnings of all the lines. *)
Lemma parse_lines_spec lines lineno domains :
  parse_lines lineno lines domains
  = (Stderr <$> warnings lineno lines,
     Val (domains ++ omap line_domain lines)).
Proof.
  revert lineno domains. induction lines as [|raw lines IH]; intros lineno domains.
  - cbn. by rewrite app_nil_r.
  - cbn [parse_lines warnings omap]. rewrite parse_line_spec.
    unfold mbind at 1, M_bind. cbn [fst snd]. rewrite IH. cbn [fst snd].
    rewrite fmap_app, <- app_assoc. cbn [omap list_omap].
    by destruct (line_domain raw).
Qed.


Lemma sorted_set_perm domains :
  sorted_set domains ≡ₚ elements (list_to_set domains : gset string).
Proof. apply merge_sort_Permutation. Qed.

Lemma elem_of_sorted_set domains d : d ∈ sorted_set domains ↔ d ∈ domains.
Proof.
  rewrite sorted_set_perm, elem_of_elements. apply elem_of_list_to_set.
Qed.

Lemma sorted_set_nil domains : sorted_set domains = [] ↔ domains = [].
Proof.
  split.
  - intros Hs. destruct domains as [|d domains]; [done|].
    assert (d ∈ sorted_set (d :: domains)) as Hd
      by (apply elem_of_sorted_set; apply list_elem_of_here).
    rewrite Hs in Hd. by apply not_elem_of_nil in Hd.
  - by intros ->.
Qed.

Lemma sorted_set_NoDup domains : NoDup (sorted_set domains).
Proof. rewrite sorted_set_perm. apply NoDup_elements. Qed.

Lemma sorted_set_Sorted domains : StronglySorted String.le (sorted_set domains).
Proof. apply StronglySorted_merge_sort; apply _. Qed.

(** The three ways [parse_allow_list] ends. *)
Lemma parse_allow_list_spec w path :
  parse_allow_list w path =
  match files w path with
  | None => ([Stderr (ErrAllowListNotFound path)], Exit 1)
  | Some (Unreadable sofar e) =>
      (Stderr <$> warnings 1 (Str.readlines sofar), Raise e)
  | Some (Readable text) =>
      let lines := Str.readlines text in
      match omap line_domain lines with
      | [] => (Stderr <$> (warnings 1 lines ++ [ErrNoValidDomains]), Exit 1)
      | ds => (Stderr <$> warnings 1 lines, Val (sorted_set ds))
      end
  end.
Proof.
  unfold parse_allow_list.
  destruct (files w path) as [[text|sofar e]|]; [| |done].
  - rewrite parse_lines_spec. cbn [app]. unfold mbind at 1, M_bind. cbn [fst snd].
    destruct (omap line_domain (Str.readlines text)) as [|d ds] eqn:Hds.
    + cbn. by rewrite fmap_app.
    + destruct (sorted_set (d :: ds)) eqn:Hs.
      * apply (proj1 (sorted_set_nil _)) in Hs. discriminate.
      * cbn. by rewrite app_nil_r.
  - rewrite parse_lines_spec. cbn. by rewrite app_nil_r.
Qed.
End parse.


(** ** The matcher *)

Section matcher.
Implicit Types (p q : pos) (w : list ascii) (step : pos → list pos).

Lemma consumes_nil p : consumes [] p p.
Proof. by split. Qed.

Lemma consumes_nil_inv p q : consumes [] p q → q = p.
Proof. destruct p, q. intros [H1 H2]. simpl in *. by subst. Qed.

Lemma consumes_app w1 w2 p q r :
  consumes w1 p q → consumes w2 q r → consumes (w1 ++ w2) p r.
Proof.
  intros [H1 H2] [H3 H4]. split.
  - by rewrite H1, H3, <- app_assoc.
  - by rewrite H4, H2, rev_app_distr, <- app_assoc.
Qed.

Lemma consumes_app_inv w1 w2 p r :
  consumes (w1 ++ w2) p r → ∃ q, consumes w1 p q ∧ consumes w2 q r.
Proof.
  intros [H1 H2]. exists (rev w1 ++ p.1, w2 ++ r.2). split; split; simpl.
  - by rewrite H1, <- app_assoc.
  - done.
  - done.
  - by rewrite H2, rev_app_distr, <- app_assoc.
Qed.

Lemma consumes_length w p q : consumes w p q → length p.2 = length w + length q.2.
Proof. intros [-> _]. by rewrite length_app. Qed.

Lemma in_exactly step n p q : In q (exactly step n p) ↔ reach step n p q.
Proof.
  revert p. induction n as [|n IH]; intros p; simpl.
  - split; [by intros [->|[]] | by intros ->; left].
  - rewrite in_flat_map. by setoid_rewrite IH.
Qed.

Lemma in_upto step n p q :
  In q (upto step n p) ↔ ∃ k, k ≤ n ∧ reach step k p q.
Proof.
  revert p. induction n as [|n IH]; intros p; simpl.
  - split.
    + intros [->|[]]. by exists 0.
    + intros (k & Hk & Hr). assert (k = 0) as -> by lia. left. by simpl in Hr.
  - rewrite in_app_iff, in_flat_map. setoid_rewrite IH. split.
    + intros [(p' & Hp' & k & Hk & Hr) | [->|[]]].
      * exists (S k). split; [lia|]. by exists p'.
      * by exists 0; split; [lia|].
    + intros ([|k] & Hk & Hr).
      * right. left. by simpl in Hr.
      * left. destruct Hr as (p' & Hp' & Hr). exists p'. split; [done|].
        exists k. split; [lia|done].
Qed.

Lemma in_ends_seq r1 r2 p q :
  In q (ends (r1 +> r2) p) ↔ ∃ p', In p' (ends r1 p) ∧ In q (ends r2 p').
Proof. simpl. apply in_flat_map. Qed.

Lemma in_ends_cls k p q :
  In q (ends (Cls k) p) ↔ ∃ c, cls_mem k c = true ∧ consumes [c] p q.
Proof.
  destruct p as [b a], q as [b' a']. unfold consumes. simpl.
  destruct a as [|c a]; simpl.
  - split; [done|]. by intros (c & _ & ? & _).
  - destruct (cls_mem k c) eqn:Hc; simpl.
    + split.
      * intros [[= <- <-]|[]]. by exists c.
      * intros (c' & Hc' & [= -> ->] & ->). by left.
    + split; [done|]. intros (c' & Hc' & [= -> ->] & _). congruence.
Qed.

Lemma reach_cls k n p q :
  reach (ends (Cls k)) n p q ↔
  ∃ w, length w = n ∧ in_cls k w ∧ consumes w p q.
Proof.
  revert p. induction n as [|n IH]; intros p; cbn [reach].
  - split.
    + intros ->. exists []. repeat split; constructor.
    + intros (w & Hw & _ & Hc). destruct w; [|done].
      by apply consumes_nil_inv in Hc.
  - setoid_rewrite in_ends_cls. setoid_rewrite IH. split.
    + intros (p' & (c & Hc & Hcons) & w & Hw & Hk & Hcons').
      exists (c :: w). split; [by simpl; f_equal|]. split; [by constructor|].
      by apply (consumes_app [c] w p p' q).
    + intros (w & Hw & Hk & Hcons). destruct w as [|c w]; [done|].
      apply (consumes_app_inv [c] w) in Hcons as (p' & H1 & H2).
      inversion Hk; subst. exists p'. split; [by exists c|].
      exists w. split; [by injection Hw|done].
Qed.

(** [[...]{lo,hi}] *)
Lemma in_ends_rep_cls k lo hi p q :
  In q (ends (Rep (Cls k) lo (Some hi)) p) ↔
  ∃ w, lo ≤ length w ≤ lo + (hi - lo) ∧ in_cls k w ∧ consumes w p q.
Proof.
  cbn [ends]. rewrite in_flat_map. setoid_rewrite in_exactly.
  setoid_rewrite in_upto. setoid_rewrite reach_cls. split.
  - intros (p' & (w1 & Hw1 & Hk1 & Hc1) & n & Hn & w2 & Hw2 & Hk2 & Hc2).
    exists (w1 ++ w2). split; [rewrite length_app; lia|].
    split; [by apply Forall_app|]. by apply (consumes_app _ _ _ p').
  - intros (w & Hw & Hk & Hc).
    rewrite <- (take_drop lo w) in Hc, Hk.
    apply Forall_app in Hk as [Hk1 Hk2].
    apply consumes_app_inv in Hc as (p' & Hc1 & Hc2).
    exists p'. split.
    + exists (take lo w). split; [rewrite length_take; lia|done].
    + exists (length (drop lo w)). split; [rewrite length_drop; lia|].
      by exists (drop lo w).
Qed.

(** [[...]{lo,}] *)
Lemma in_ends_rep_cls_inf k lo p q :
  In q (ends (Rep (Cls k) lo None) p) ↔
  ∃ w, lo ≤ length w ∧ in_cls k w ∧ consumes w p q.
Proof.
  cbn [ends]. rewrite in_flat_map. setoid_rewrite in_exactly.
  setoid_rewrite in_upto. setoid_rewrite reach_cls. split.
  - intros (p' & (w1 & Hw1 & Hk1 & Hc1) & n & Hn & w2 & Hw2 & Hk2 & Hc2).
    exists (w1 ++ w2). split; [rewrite length_app; lia|].
    split; [by apply Forall_app|]. by apply (consumes_app _ _ _ p').
  - intros (w & Hw & Hk & Hc).
    rewrite <- (take_drop lo w) in Hc, Hk.
    apply Forall_app in Hk as [Hk1 Hk2].
    apply consumes_app_inv in Hc as (p' & Hc1 & Hc2).
    exists p'. split.
    + exists (take lo w). split; [rewrite length_take; lia|done].
    + exists (length (drop lo w)). split.
      * apply consumes_length in Hc2. lia.
      * by exists (drop lo w).
Qed.
End matcher.

(** ** What [DOMAIN_RE] matches *)

Section domain_re.
Implicit Types (p q : pos) (w : list ascii) (ws : list (list ascii)).

Lemma cls_mem_chr c c' : cls_mem [Chr c'] c = true ↔ c = c'.
Proof.
  unfold cls_mem. simpl. rewrite orb_false_r. apply Ascii.eqb_eq.
Qed.

Lemma in_ends_lit c p q : In q (ends (Lit c) p) ↔ consumes [c] p q.
Proof.
  unfold Lit. rewrite in_ends_cls. split.
  - by intros (c' & ->%cls_mem_chr & H).
  - intros H. exists c. split; [by apply cls_mem_chr|done].
Qed.

Lemma in_ends_bol p q : In q (ends Bol p) ↔ q = p ∧ p.1 = [].
Proof.
  destruct p as [[|c b] a]; simpl; [|by intuition].
  split; [intros [<-|[]]; by split | by intros [-> _]; left].
Qed.

Lemma in_ends_eol p q :
  In q (ends Eol p) ↔ q = p ∧ (p.2 = [] ∨ p.2 = [Char.newline]).
Proof.
  destruct p as [b [|c [|c' a]]]; simpl.
  - split; [intros [<-|[]]; auto | intros [-> _]; by left].
  - destruct (Ascii.eqb c Char.newline) eqn:Hc; simpl.
    + apply Ascii.eqb_eq in Hc as ->.
      split; [intros [<-|[]]; auto | intros [-> _]; by left].
    + apply Ascii.eqb_neq in Hc.
      split; [done|]. intros [_ [?|?]]; [done|congruence].
  - split; [done|]. by intros [_ [?|?]].
Qed.

Lemma in_ends_not_ahead_lit c p q :
  In q (ends (NotAhead (Lit c)) p) ↔ q = p ∧ head p.2 ≠ Some c.
Proof.
  cbn [ends]. destruct (ends (Lit c) p) as [|p' l] eqn:He.
  - split.
    + intros [<-|[]]. split; [done|]. intros Hh.
      destruct p as [b [|c' a]]; [done|]. injection Hh as ->.
      assert (In (c :: b, a) (ends (Lit c) (b, c :: a))) as Hin
        by (apply in_ends_lit; by split).
      by rewrite He in Hin.
    + intros [-> _]. by left.
  - split; [done|]. intros [_ Hh].
    assert (In p' (ends (Lit c) p)) as [Hc _]%in_ends_lit
      by (rewrite He; by left).
    rewrite Hc in Hh. done.
Qed.

Lemma in_ends_not_behind_chr c p q :
  In q (ends (NotBehind [Chr c]) p) ↔ q = p ∧ head p.1 ≠ Some c.
Proof.
  destruct p as [[|c' b] a]; cbn [ends fst snd head].
  - split; [intros [<-|[]]; by split | by intros [-> _]; left].
  - destruct (cls_mem [Chr c] c') eqn:Hc.
    + apply cls_mem_chr in Hc as ->. split; [done|]. by intros [_ ?].
    + split; [|by intros [-> _]; left].
      intros [<-|[]]. split; [done|]. intros [= ->].
      assert (cls_mem [Chr c] c = true) by by apply cls_mem_chr.
      congruence.
Qed.

(** [\.[A-Za-z0-9-]{1,63}] *)
Lemma in_ends_inner p q :
  In q (ends (Lit "." +> Rep (Cls LDH) 1 (Some 63)) p) ↔
  ∃ w, inner_label w ∧ consumes ("."%char :: w) p q.
Proof.
  rewrite in_ends_seq. setoid_rewrite in_ends_lit.
  setoid_rewrite in_ends_rep_cls. unfold inner_label. split.
  - intros (p' & Hdot & w & Hw & Hk & Hc). exists w.
    split; [split; [simpl in Hw; lia|done]|].
    by apply (consumes_app ["."%char] w p p' q).
  - intros (w & [Hw Hk] & Hc).
    apply (consumes_app_inv ["."%char] w) in Hc as (p' & H1 & H2).
    exists p'. split; [done|]. exists w. split; [simpl; lia|done].
Qed.

Lemma reach_inner n p q :
  reach (ends (Lit "." +> Rep (Cls LDH) 1 (Some 63))) n p q ↔
  ∃ ws, length ws = n ∧ Forall inner_label ws ∧ consumes (dotted ws) p q.
Proof.
  revert p. induction n as [|n IH]; intros p; cbn [reach].
  - split.
    + intros ->. exists []. repeat split; constructor.
    + intros (ws & Hn & _ & Hc). destruct ws; [|done].
      by apply consumes_nil_inv in Hc.
  - setoid_rewrite in_ends_inner. setoid_rewrite IH. split.
    + intros (p' & (w & Hw & Hc) & ws & Hn & Hws & Hc').
      exists (w :: ws). split; [by simpl; f_equal|]. split; [by constructor|].
      by apply (consumes_app ("."%char :: w) (dotted ws) p p' q).
    + intros (ws & Hn & Hws & Hc). destruct ws as [|w ws]; [done|].
      apply (consumes_app_inv ("."%char :: w) (dotted ws)) in Hc as (p' & H1 & H2).
      inversion Hws; subst. exists p'. split; [by exists w|].
      exists ws. split; [by injection Hn|done].
Qed.

Lemma length_dotted ws : length ws ≤ length (dotted ws).
Proof.
  induction ws as [|w ws IH]; [done|].
  unfold dotted in *. simpl. rewrite length_app. lia.
Qed.

(** [(\.[A-Za-z0-9-]{1,63})*] *)
Lemma in_ends_star_inner p q :
  In q (ends (Star (Lit "." +> Rep (Cls LDH) 1 (Some 63))) p) ↔
  ∃ ws, Forall inner_label ws ∧ consumes (dotted ws) p q.
Proof.
  cbn [ends]. rewrite in_upto. setoid_rewrite reach_inner. split.
  - intros (n & _ & ws & _ & Hws & Hc). by exists ws.
  - intros (ws & Hws & Hc). exists (length ws). split.
    + apply consumes_length in Hc. pose proof (length_dotted ws). lia.
    + by exists ws.
Qed.

Lemma matches_true r s :
  matches r s = true ↔ ∃ q, In q (ends r ([], Str.chars s)).
Proof.
  unfold matches. destruct (ends r _) as [|q l].
  - split; [done|]. by intros [q []].
  - split; [|done]. intros _. exists q. by left.
Qed.

Lemma last_rev_head w : head (rev w) = last w.
Proof.
  induction w as [|c w IH] using rev_ind; [done|].
  by rewrite rev_app_distr, last_snoc.
Qed.

(** The pattern and the language are the same thing. *)
Theorem DOMAIN_RE_lang s :
  matches DOMAIN_RE s = true ↔ domain_re_lang (Str.chars s).
Proof.
  rewrite matches_true. unfold DOMAIN_RE, domain_re_lang.
  set (cs := Str.chars s). clearbody cs. split.
  - intros (q & Hq).
    apply in_ends_seq in Hq as (p1 & [-> _]%in_ends_bol & Hq).
    apply in_ends_seq in Hq as (p2 & [-> Hhead]%in_ends_not_ahead_lit & Hq).
    apply in_ends_seq in Hq as (p3 & (w1 & Hw1 & Hk1 & Hc1)%in_ends_rep_cls & Hq).
    apply in_ends_seq in Hq as (p4 & [-> Hlast]%in_ends_not_behind_chr & Hq).
    apply in_ends_seq in Hq as (p5 & (ws & Hws & Hc2)%in_ends_star_inner & Hq).
    apply in_ends_seq in Hq as (p6 & Hc3%in_ends_lit & Hq).
    apply in_ends_seq in Hq as (p7 & (w2 & Hw2 & Hk2 & Hc4)%in_ends_rep_cls_inf & Hq).
    apply in_ends_eol in Hq as [-> Htail].
    exists w1, ws, w2, p7.2.
    destruct Hc1 as [Hc1 Hb1], Hc2 as [Hc2 _], Hc3 as [Hc3 _], Hc4 as [Hc4 _].
    simpl in Hc1, Hb1, Hhead. rewrite Hb1, app_nil_r, last_rev_head in Hlast.
    split; [by rewrite Hc1, Hc2, Hc3, Hc4|].
    split; [done|]. split; [simpl in Hw1; lia|]. split; [done|].
    split; [|done].
    rewrite Hc1 in Hhead. destruct w1; [simpl in Hw1; lia|done].
  - intros (w1 & ws & w2 & tail & -> & Htail & Hw1 & Hk1 & Hhead & Hlast
            & Hws & Hw2 & Hk2).
    set (p3 := (rev w1, dotted ws ++ "."%char :: w2 ++ tail) : pos).
    set (p5 := (rev (dotted ws) ++ rev w1, "."%char :: w2 ++ tail) : pos).
    set (p6 := ("."%char :: rev (dotted ws) ++ rev w1, w2 ++ tail) : pos).
    set (p7 := (rev w2 ++ "."%char :: rev (dotted ws) ++ rev w1, tail) : pos).
    exists p7.
    apply in_ends_seq. eexists. split; [by apply in_ends_bol|].
    apply in_ends_seq. eexists. split.
    { apply in_ends_not_ahead_lit. split; [done|]. simpl.
      destruct w1; [simpl in Hw1; lia|done]. }
    apply in_ends_seq. exists p3. split.
    { apply in_ends_rep_cls. exists w1. split; [lia|]. split; [done|].
      split; simpl; [done|by rewrite app_nil_r]. }
    apply in_ends_seq. exists p3. split.
    { apply in_ends_not_behind_chr. split; [done|].
      simpl. by rewrite last_rev_head. }
    apply in_ends_seq. exists p5. split.
    { apply in_ends_star_inner. exists ws. by split. }
    apply in_ends_seq. exists p6. split.
    { apply in_ends_lit. by split. }
    apply in_ends_seq. exists p7. split.
    { apply in_ends_rep_cls_inf. exists w2. split; [done|]. split; [done|].
      by split. }
    apply in_ends_eol. by split.
Qed.
End domain_re.


(** ** Characters, case and white space *)

Section chars.
Implicit Types (c : ascii) (s : string) (cs : list ascii).

Local Ltac by_cases c :=
  destruct c as [[] [] [] [] [] [] [] []]; vm_compute;
  first [reflexivity | intros; first [reflexivity | discriminate | tauto]].

Lemma lower_LDH c : cls_mem LDH (Char.lower c) = cls_mem LDH c.
Proof. by_cases c. Qed.

Lemma lower_ALPHA c : cls_mem ALPHA (Char.lower c) = cls_mem ALPHA c.
Proof. by_cases c. Qed.

Lemma lower_hyphen c : Char.lower c = "-"%char → c = "-"%char.
Proof. by_cases c. Qed.

Lemma lower_lower c : Char.lower (Char.lower c) = Char.lower c.
Proof. by_cases c. Qed.

Lemma LDH_not_invalid c :
  cls_mem LDH c = true → cls_mem INVALID_CHARS_RE c = false.
Proof. by_cases c. Qed.

Lemma LDH_not_hash c : cls_mem LDH c = true → c ≠ "#"%char.
Proof. by_cases c. Qed.

Lemma LDH_not_space c : cls_mem LDH c = true → Char.isspace c = false.
Proof. by_cases c. Qed.

Lemma ALPHA_LDH c : cls_mem ALPHA c = true → cls_mem LDH c = true.
Proof. by_cases c. Qed.

Lemma LDH_not_star c : cls_mem LDH c = true → c ≠ "*"%char.
Proof. by_cases c. Qed.

Lemma chars_lower s : Str.chars (Str.lower s) = map Char.lower (Str.chars s).
Proof. induction s as [|c s IH]; [done|]. simpl. by f_equal. Qed.

Lemma lower_idemp s : Str.lower (Str.lower s) = Str.lower s.
Proof. induction s as [|c s IH]; [done|]. simpl. by rewrite lower_lower, IH. Qed.


Lemma chars_inj s1 s2 : Str.chars s1 = Str.chars s2 → s1 = s2.
Proof.
  intros H. rewrite <- (string_of_list_ascii_of_string s1).
  rewrite <- (string_of_list_ascii_of_string s2). unfold Str.chars in H. by rewrite H.
Qed.

Lemma chars_app s1 s2 : Str.chars (s1 +:+ s2) = Str.chars s1 ++ Str.chars s2.
Proof. induction s1 as [|c s1 IH]; [done|]. simpl. by f_equal. Qed.

(** [rstrip] leaves no white space at the end. *)
Lemma rstrip_last s c :
  last (Str.chars (Str.rstrip s)) = Some c → Char.isspace c = false.
Proof.
  induction s as [|c' s IH]; [done|]. cbn [Str.rstrip].
  destruct (Str.rstrip s) as [|c'' s'] eqn:Hs.
  - cbn. destruct (Char.isspace c') eqn:Hc'; [done|].
    cbn. by intros [= <-].
  - cbn [Str.is_empty andb]. intros Hl. apply IH.
    by rewrite <- Hl.
Qed.

Lemma strip_last s c :
  last (Str.chars (Str.strip s)) = Some c → Char.isspace c = false.
Proof. apply rstrip_last. Qed.
End chars.

(** ** Consequences for the lines of the two lists *)

Section accepted.
Implicit Types (c : ascii) (s raw : string) (cs w : list ascii)
  (ws : list (list ascii)).

Lemma in_cls_lower k w :
  (∀ c, cls_mem k (Char.lower c) = cls_mem k c) →
  in_cls k w → in_cls k (map Char.lower w).
Proof.
  intros Hk Hw. unfold in_cls in *. apply Forall_map.
  eapply Forall_impl; [exact Hw|]. intros c Hc. simpl. by rewrite Hk.
Qed.

Lemma dotted_lower ws :
  map Char.lower (dotted ws) = dotted (map (map Char.lower) ws).
Proof.
  unfold dotted. induction ws as [|w ws IH]; [done|].
  simpl. rewrite map_app. by rewrite IH.
Qed.

Lemma head_lower_hyphen w :
  head w ≠ Some "-"%char → head (map Char.lower w) ≠ Some "-"%char.
Proof.
  destruct w as [|c w]; [done|]. simpl. intros H [= Hc%lower_hyphen].
  by subst.
Qed.

Lemma last_lower_hyphen w :
  last w ≠ Some "-"%char → last (map Char.lower w) ≠ Some "-"%char.
Proof.
  induction w as [|c w _] using rev_ind; [done|].
  rewrite map_app. cbn [map]. rewrite !last_snoc.
  intros H [= Hc%lower_hyphen]. by subst.
Qed.

(** The language is closed under [lower]. *)
Lemma lang_lower cs : domain_re_lang cs → domain_re_lang (map Char.lower cs).
Proof.
  intros (first & mids & final & tail & -> & Htail & Hlen & Hk & Hh & Hl
          & Hmids & Hlen2 & Hk2).
  exists (map Char.lower first), (map (map Char.lower) mids),
    (map Char.lower final), tail.
  split.
  { rewrite !map_app. cbn [map]. rewrite !map_app, dotted_lower.
    by destruct Htail as [->| ->]. }
  split; [done|]. split; [by rewrite length_map|].
  split; [apply in_cls_lower; [apply lower_LDH|done]|].
  split; [by apply head_lower_hyphen|]. split; [by apply last_lower_hyphen|].
  split.
  { apply Forall_map. eapply Forall_impl; [exact Hmids|].
    intros w [Hw Hkw]. split; [by rewrite length_map|].
    apply in_cls_lower; [apply lower_LDH|done]. }
  split; [by rewrite length_map|].
  apply in_cls_lower; [apply lower_ALPHA|done].
Qed.

Lemma matches_lower s :
  matches DOMAIN_RE s = true → matches DOMAIN_RE (Str.lower s) = true.
Proof.
  rewrite !DOMAIN_RE_lang, chars_lower. apply lang_lower.
Qed.

Lemma dotted_domain_chars ws :
  Forall inner_label ws → Forall domain_char (dotted ws).
Proof.
  unfold dotted. induction 1 as [|w ws [_ Hw] _ IH]; [constructor|].
  simpl. constructor; [by right|]. apply Forall_app. split; [|done].
  eapply Forall_impl; [exact Hw|]. intros c Hc. by left.
Qed.

(** A subject in the language that does not end in white space starts
    with a character of [[A-Za-z0-9-]] and holds domain characters
    only. *)
Lemma lang_shape cs :
  domain_re_lang cs →
  (∀ c, last cs = Some c → Char.isspace c = false) →
  Forall domain_char cs
  ∧ ∃ c0 rest, cs = c0 :: rest ∧ cls_mem LDH c0 = true.
Proof.
  intros (first & mids & final & tail & -> & Htail & Hlen & Hk & Hh & Hl
          & Hmids & Hlen2 & Hk2) Hlast.
  destruct Htail as [-> | ->].
  - rewrite app_nil_r. split.
    + apply Forall_app. split.
      { eapply Forall_impl; [exact Hk|]. intros c Hc. by left. }
      apply Forall_app. split; [by apply dotted_domain_chars|].
      constructor; [by right|].
      eapply Forall_impl; [exact Hk2|]. intros c Hc. left. by apply ALPHA_LDH.
    + destruct first as [|c0 first]; [simpl in Hlen; lia|].
      exists c0, (first ++ dotted mids ++ "."%char :: final).
      split; [done|]. by inversion Hk.
  - exfalso.
    assert (Char.isspace Char.newline = false) as Hsp; [|done].
    apply Hlast.
    replace (first ++ dotted mids ++ "."%char :: final ++ [Char.newline])
      with ((first ++ dotted mids ++ "."%char :: final) ++ [Char.newline])
      by (by rewrite <- !app_assoc).
    apply last_snoc.
Qed.

Lemma findall_domain_chars s :
  Forall domain_char (Str.chars s) → findall INVALID_CHARS_RE s = [].
Proof.
  unfold findall. induction 1 as [|c cs Hc _ IH]; [done|].
  rewrite filter_cons_False; [done|].
  destruct Hc as [Hc| ->]; [by rewrite LDH_not_invalid|by vm_compute].
Qed.

Lemma check_invalid_chars_clean s :
  findall INVALID_CHARS_RE s = [] → _check_invalid_chars s = None.
Proof.
  intros H. unfold _check_invalid_chars. rewrite H. cbn [list_to_set foldr].
  by destruct (decide _).
Qed.

Lemma domain_char_lower c : domain_char c → domain_char (Char.lower c).
Proof. intros [H| ->]; [left; by rewrite lower_LDH | by right]. Qed.

Lemma lower_isspace c : Char.isspace (Char.lower c) = Char.isspace c.
Proof.
  destruct c as [[] [] [] [] [] [] [] []]; vm_compute; reflexivity.
Qed.

Lemma lower_strip_last raw c :
  last (Str.chars (Str.lower (Str.strip raw))) = Some c → Char.isspace c = false.
Proof.
  rewrite chars_lower. change (map Char.lower ?l) with (Char.lower <$> l).
  rewrite fmap_last.
  destruct (last (Str.chars (Str.strip raw))) as [c'|] eqn:Hl; [|done].
  intros [= <-]. rewrite lower_isspace. by apply (strip_last raw).
Qed.

(** The first character of a match is one of [[A-Za-z0-9-]]. *)
Lemma matches_head s :
  matches DOMAIN_RE s = true →
  ∃ c t, s = String c t ∧ cls_mem LDH c = true.
Proof.
  intros (first & mids & final & tail & Hs & _ & Hlen & Hk & _)%DOMAIN_RE_lang.
  destruct first as [|c first]; [simpl in Hlen; lia|].
  destruct s as [|c' t]; [done|]. injection Hs as -> _.
  exists c, t. split; [done|]. by inversion Hk.
Qed.

(** A line that matches once stripped and lowered is appended. *)
Lemma matches_line_domain raw :
  matches DOMAIN_RE (Str.lower (Str.strip raw)) = true →
  line_domain raw = Some (Str.lower (Str.strip raw)).
Proof.
  intros Hm. unfold line_domain. cbn zeta.
  destruct (matches_head _ Hm) as (c & t & Hline & Hc).
  pose proof Hm as Hlang. apply DOMAIN_RE_lang in Hlang.
  destruct (lang_shape _ Hlang (lower_strip_last raw)) as [Hall _].
  rewrite check_invalid_chars_clean by by apply findall_domain_chars.
  rewrite Hm. rewrite Hline.
  assert (Str.startswith "#" (String c t) = false) as ->; [|done].
  unfold Str.startswith. cbn [String.prefix].
  destruct (ascii_dec "#" c) as [Heq|]; [|done].
  exfalso. by eapply LDH_not_hash.
Qed.

End accepted.

(** ** The grammar of the specification and the pattern *)

Section grammar.
Implicit Types (c : ascii) (s : string) (cs w : list ascii)
  (ws : list (list ascii)).

Lemma split_dots_join cs :
  ∃ w ws, split_dots cs = w :: ws ∧ cs = w ++ dotted ws.
Proof.
  induction cs as [|c cs (w & ws & Hs & Hcs)].
  - by exists [], [].
  - cbn [split_dots]. rewrite Hs. destruct (Ascii.eqb c ".") eqn:Hc.
    + apply Ascii.eqb_eq in Hc as ->. exists [], (w :: ws).
      split; [done|]. unfold dotted in *. simpl. by rewrite Hcs at 1.
    + exists (c :: w), ws. split; [done|]. simpl. by f_equal.
Qed.

Lemma dotted_snoc ws w : dotted (ws ++ [w]) = dotted ws ++ "."%char :: w.
Proof.
  unfold dotted. rewrite map_app, concat_app. simpl. by rewrite app_nil_r.
Qed.

Lemma is_hyphen_false o : is_hyphen o = false → o ≠ Some "-"%char.
Proof. intros H ->. by vm_compute in H. Qed.

Lemma forallb_Forall {A} (f : A → bool) (l : list A) :
  forallb f l = true → Forall (fun x => f x = true) l.
Proof.
  induction l as [|x l IH]; [constructor|]. simpl.
  intros [? ?]%andb_true_iff. constructor; auto.
Qed.

Lemma spec_label_inv w :
  spec_label w = true →
  1 ≤ length w ≤ 63 ∧ in_cls LDH w
  ∧ head w ≠ Some "-"%char ∧ last w ≠ Some "-"%char.
Proof.
  unfold spec_label. rewrite !andb_true_iff, !negb_true_iff.
  intros ((((H1%Nat.leb_le & H2%Nat.leb_le) & H3%forallb_Forall) & H4) & H5).
  split; [lia|]. split; [done|].
  split; by apply is_hyphen_false.
Qed.

(** Every string of the grammar of the specification is in the language
    of [DOMAIN_RE]. *)
Lemma spec_grammar_lang s :
  spec_domain_grammar s = true → domain_re_lang (Str.chars s).
Proof.
  unfold spec_domain_grammar. cbn zeta.
  destruct (split_dots_join (Str.chars s)) as (first & rest & -> & ->).
  rewrite !andb_true_iff. intros [[Hlen%Nat.leb_le Hall] Hfin].
  destruct rest as [|w rest _] using rev_ind; [simpl in Hlen; lia|].
  rewrite app_comm_cons, last_snoc in Hfin. cbn [from_option] in Hfin.
  cbn [forallb] in Hall. apply andb_true_iff in Hall as [Hfirst Hrest].
  rewrite forallb_app in Hrest. apply andb_true_iff in Hrest as [Hmids _].
  apply spec_label_inv in Hfirst as (Hl1 & Hk1 & Hh & Hl).
  unfold spec_final_label in Hfin.
  apply andb_true_iff in Hfin as [Hl2%Nat.leb_le Hk2%forallb_Forall].
  exists first, rest, w, [].
  split; [by rewrite dotted_snoc, app_nil_r|].
  split; [by left|]. split; [done|]. split; [done|]. split; [done|].
  split; [done|]. split.
  { apply forallb_Forall in Hmids. eapply Forall_impl; [exact Hmids|].
    intros w' Hw'. apply spec_label_inv in Hw'. split; tauto. }
  done.
Qed.

Lemma spec_grammar_matches s :
  spec_domain_grammar s = true → matches DOMAIN_RE s = true.
Proof. intros H. apply DOMAIN_RE_lang. by apply spec_grammar_lang. Qed.
End grammar.

(** C2. [deduplicate] routes every domain of the allow list to exactly one
    of its two results: to [removed] when it is a member of the exclusion
    set, to [kept] otherwise.  The two results together hold the members of
    the allow list, occurrence for occurrence, each is a subsequence of the
    allow list (the order of the input is kept), and over a store of Python
    objects the call ends, returns two new lists, and leaves the allow
    list, the exclusion set and every other object as they were. *)
Theorem deduplicate_partitions
    (h : Heap.heap) (la ls : Heap.loc) (allow : list string) (zs : gset string) :
  h !! la = Some (Heap.PyList allow) →
  h !! ls = Some (Heap.PySet zs) →
  let kept := (deduplicate allow zs).1 in
  let removed := (deduplicate allow zs).2 in
  (∀ d, d ∈ allow →
     (d ∈ zs ∧ d ∈ removed ∧ (d ∉ kept)) ∨ ((d ∉ zs) ∧ d ∈ kept ∧ (d ∉ removed)))
  ∧ (∀ d, d ∈ kept → d ∉ zs) ∧ (∀ d, d ∈ removed → d ∈ zs)
  ∧ list_to_set kept ∪ list_to_set removed =@{gset string} list_to_set allow
  ∧ kept ++ removed ≡ₚ allow
  ∧ sublist kept allow ∧ sublist removed allow
  ∧ ∃ h' lk lr,
      Heap.deduplicate h la ls = Some (h', (lk, lr))
      ∧ h' !! lk = Some (Heap.PyList kept)
      ∧ h' !! lr = Some (Heap.PyList removed)
      ∧ lk ≠ lr ∧ h !! lk = None ∧ h !! lr = None
      ∧ h' !! la = Some (Heap.PyList allow)
      ∧ h' !! ls = Some (Heap.PySet zs)
      ∧ ∀ l, is_Some (h !! l) → h' !! l = h !! l.
Proof.
  intros Ha Hs kept removed. subst kept removed.
  rewrite deduplicate_filter. cbn [fst snd].
  assert (Hperm : filter (fun d => d ∉ zs) allow ++ filter (fun d => d ∈ zs) allow
                  ≡ₚ allow).
  { clear. induction allow as [|d allow IH]; [done|].
    destruct (decide (d ∈ zs)).
    - rewrite (filter_cons_True (fun d => d ∈ zs)) by done.
      rewrite (filter_cons_False (fun d => d ∉ zs)) by (intros ?; done).
      rewrite <- Permutation_middle. by constructor.
    - rewrite (filter_cons_False (fun d => d ∈ zs)) by done.
      rewrite (filter_cons_True (fun d => d ∉ zs)) by done.
      simpl. by constructor. }
  split; [|split; [|split; [|split; [|split; [|split; [|split]]]]]].
  - intros d Hd. rewrite !list_elem_of_filter.
    destruct (decide (d ∈ zs)); [left|right]; naive_solver.
  - intros d. rewrite list_elem_of_filter. naive_solver.
  - intros d. rewrite list_elem_of_filter. naive_solver.
  - apply set_eq. intros d.
    rewrite elem_of_union, !elem_of_list_to_set, !list_elem_of_filter.
    destruct (decide (d ∈ zs)); naive_solver.
  - done.
  - apply sublist_filter.
  - apply sublist_filter.
  - unfold Heap.deduplicate, Heap.alloc. cbn zeta. rewrite Ha. cbn [mbind option_bind].
    set (lk := fresh (dom h)).
    set (h1 := <[lk := Heap.PyList []]> h).
    set (lr := fresh (dom h1)).
    assert (Hlk : h !! lk = None).
    { apply not_elem_of_dom. apply is_fresh. }
    assert (Hlr1 : h1 !! lr = None).
    { apply not_elem_of_dom. apply is_fresh. }
    assert (Hne : lk ≠ lr).
    { intros Heq. rewrite <- Heq in Hlr1. unfold h1 in Hlr1.
      by rewrite lookup_insert_eq in Hlr1. }
    assert (Hlr : h !! lr = None).
    { unfold h1 in Hlr1. by rewrite lookup_insert_ne in Hlr1. }
    assert (la ≠ lk) by (intros ->; congruence).
    assert (la ≠ lr) by (intros ->; congruence).
    assert (ls ≠ lk) by (intros ->; congruence).
    assert (ls ≠ lr) by (intros ->; congruence).
    destruct (for_loop_spec allow [] zs la ls lk lr
                (<[lr := Heap.PyList []]> h1) [] [])
      as (h' & Hrun & Hk' & Hr' & Hfr); try done.
    + unfold h1. by rewrite !lookup_insert_ne.
    + unfold h1. by rewrite !lookup_insert_ne.
    + unfold h1. rewrite lookup_insert_ne by done. by rewrite lookup_insert_eq.
    + by rewrite lookup_insert_eq.
    + cbn [length app] in Hrun. rewrite Hrun. cbn [mbind option_bind].
      exists h', lk, lr. rewrite deduplicate_filter in Hk', Hr'.
      cbn [fst snd app] in Hk', Hr'.
      assert (Hframe : ∀ l, is_Some (h !! l) → h' !! l = h !! l).
      { intros l [o Ho].
        assert (l ≠ lk) by (intros ->; congruence).
        assert (l ≠ lr) by (intros ->; congruence).
        rewrite Hfr by done. unfold h1. by rewrite !lookup_insert_ne. }
      repeat split; try done.
      * rewrite Hframe by eauto. done.
      * rewrite Hframe by eauto. done.
Qed.

Lemma deduplicate_partitions_witness :
  let h : Heap.heap :=
    <[0 := Heap.PyList ["a.com"; "b.com"; "c.com"]]>
      (<[1 := Heap.PySet {["b.com"; "d.com"]}]> ∅) in
  deduplicate ["a.com"; "b.com"; "c.com"] {["b.com"; "d.com"]}
    = (["a.com"; "c.com"], ["b.com"])
  ∧ ∃ h' lk lr, Heap.deduplicate h 0 1 = Some (h', (lk, lr))
      ∧ h' !! 0 = Some (Heap.PyList ["a.com"; "b.com"; "c.com"]).
Proof.
  intros h. split; [by vm_compute|].
  destruct (deduplicate_partitions h 0 1 ["a.com"; "b.com"; "c.com"]
              {["b.com"; "d.com"]})
    as (_ & _ & _ & _ & _ & _ & _ & h' & lk & lr & Hrun & _ & _ & _ & _ & _ & Ha & _);
    [reflexivity | reflexivity |].
  exists h', lk, lr. split; [exact Hrun | exact Ha].
Defined.


(** C1. The parser does not accept exactly the grammar of the
    specification.  The pattern checks the hyphens of the first label only
    and does not bound the length of the last label: [a.-b.com] and
    [a.b-.com], whose second label starts or ends with a hyphen, and a name
    whose last label has 64 letters, are outside the grammar, match
    [DOMAIN_RE] and are returned by [parse_allow_list]; a hyphen at either
    end of the first label is refused, as the grammar has it. *)
Theorem domain_re_misses_inner_hyphens :
  let long := "a." +:+ char_run 64 "a" in
  spec_domain_grammar "a.-b.com" = false
  ∧ matches DOMAIN_RE "a.-b.com" = true
  ∧ spec_domain_grammar "a.b-.com" = false
  ∧ matches DOMAIN_RE "a.b-.com" = true
  ∧ matches DOMAIN_RE "-a.b.com" = false
  ∧ matches DOMAIN_RE "a-.b.com" = false
  ∧ spec_domain_grammar long = false
  ∧ matches DOMAIN_RE long = true
  ∧ (parse_allow_list
       (one_file_world "allow-list.txt"
          (text_of_lines ["a.-b.com"; "a.b-.com"; long]) offline)
       "allow-list.txt").2
    = Val ["a.-b.com"; long; "a.b-.com"].
Proof. vm_compute. repeat split; reflexivity. Qed.

(** C3, as stated, fails.  The file is there, and its first 910 lines,
    all that fits in the first buffer the reader fills, are the valid
    domain [good.com]; further on the file holds bytes that are no valid
    text.  The lines of the first buffer are read and their domains
    collected, then decoding raises, and the process ends with the
    uncaught exception, status 1.  The process ends although the file
    exists and valid domains were found, and lines that are malformed
    have ended the parsing. *)
Lemma parse_allow_list_undecodable_aborts :
  let e := OtherException "UnicodeDecodeError" in
  let sofar := text_of_lines (repeat "good.com" 3) in
  let w := with_unreadable "allow-list.txt" sofar e
             (one_file_world "other.txt" "" offline) in
  let r := parse_allow_list w "allow-list.txt" in
  r = ([], Raise e)
  ∧ exit_status r = 1%Z
  ∧ (parse_lines 1 (Str.readlines sofar) []).2 = Val (repeat "good.com" 3)
  ∧ ¬ (ends_process r ↔
         files w "allow-list.txt" = None
         ∨ ∃ f, files w "allow-list.txt" = Some f
                ∧ omap line_domain (file_lines f) = []).
Proof.
  intros e sofar w r.
  assert (Hr : r = ([], Raise e)) by (by vm_compute).
  split; [exact Hr|]. split; [by rewrite Hr|]. split; [by vm_compute|].
  intros [Hends _].
  destruct Hends as [Hnone|(f & Hf & Hnil)].
  - intros a. by rewrite Hr.
  - by vm_compute in Hnone.
  - cbn in Hf. apply (inj Some) in Hf. subst f. by vm_compute in Hnil.
Qed.



(** C4. A domain that matches the pattern, written on any number of lines
    of the allow list, in any letter case and with any white space around
    it, is in the result of [parse_allow_list] exactly once and in lower
    case; the result is sorted and has no duplicates.  The strings of the
    grammar of the specification match the pattern
    ([spec_grammar_matches]), so this holds of them. *)
Theorem parse_allow_list_once_lowercase
    (w : world) (path text d raw : string) :
  files w path = Some (Readable text) →
  matches DOMAIN_RE d = true →
  raw ∈ Str.readlines text →
  Str.lower (Str.strip raw) = Str.lower d →
  ∃ l, (parse_allow_list w path).2 = Val l
       ∧ count_occ string_dec l (Str.lower d) = 1
       ∧ StronglySorted String.le l
       ∧ NoDup l.
Proof.
  intros Hf Hm Hraw Hcase.
  assert (line_domain raw = Some (Str.lower d)) as Hd.
  { rewrite <- Hcase. apply matches_line_domain. rewrite Hcase.
    by apply matches_lower. }
  rewrite parse_allow_list_spec, Hf. cbn zeta.
  assert (Str.lower d ∈ omap line_domain (Str.readlines text)) as Hin
    by (apply list_elem_of_omap; by exists raw).
  destruct (omap line_domain (Str.readlines text)) as [|d0 ds] eqn:Hds;
    [by apply not_elem_of_nil in Hin|].
  exists (sorted_set (d0 :: ds)). split; [done|].
  pose proof (sorted_set_NoDup (d0 :: ds)) as Hnd.
  split; [|split; [apply sorted_set_Sorted|done]].
  apply NoDup_ListNoDup in Hnd.
  apply (proj1 (NoDup_count_occ' string_dec _) Hnd).
  apply list_elem_of_In. by apply elem_of_sorted_set.
Qed.

Lemma parse_allow_list_once_lowercase_witness :
  let text := text_of_lines ["Example.COM"; "-bad.com"; "good.org"; "good.org"] in
  let w := one_file_world "allow-list.txt" text offline in
  (parse_allow_list w "allow-list.txt").2 = Val ["example.com"; "good.org"]
  ∧ ∃ l, (parse_allow_list w "allow-list.txt").2 = Val l
         ∧ count_occ string_dec l "example.com" = 1.
Proof.
  intros text w. split; [by vm_compute|].
  destruct (parse_allow_list_once_lowercase w "allow-list.txt" text
              "EXAMPLE.com" (String.append "Example.COM" nl))
    as (l & Hl & Hc & _).
  - reflexivity.
  - by vm_compute.
  - apply list_elem_of_here.
  - by vm_compute.
  - exists l. split; [exact Hl|exact Hc].
Defined.


(** ** [fetch_zscaler_preselected] *)

Section fetch.
Implicit Types (zs : gset string) (raw d : string) (lines : list string).

Lemma drdb_line_token zs raw :
  drdb_line zs raw = zs ∪ list_to_set (option_list (drdb_token raw)).
Proof.
  unfold drdb_line, drdb_token. cbn zeta.
  destruct (Str.is_empty _ || Str.startswith "#" _); [set_solver|].
  destruct (matches _ _); set_solver.
Qed.

Lemma elem_of_drdb_fold lines zs d :
  d ∈ foldl drdb_line zs lines ↔
  d ∈ zs ∨ ∃ raw, raw ∈ lines ∧ drdb_token raw = Some d.
Proof.
  revert zs. induction lines as [|raw lines IH]; intros zs; cbn [foldl].
  - split; [by left|]. intros [?|(raw & Hraw & _)]; [done|].
    by apply not_elem_of_nil in Hraw.
  - rewrite IH, drdb_line_token. split.
    + intros [Hd|(raw' & Hraw' & Ht)].
      * apply elem_of_union in Hd as [Hd|Hd]; [by left|]. right.
        exists raw. split; [apply list_elem_of_here|].
        destruct (drdb_token raw) as [t|]; [|set_solver].
        cbn in Hd. f_equal. set_solver.
      * right. exists raw'. split; [by apply list_elem_of_further|done].
    + intros [Hd|(raw' & Hraw' & Ht)].
      * left. set_solver.
      * apply elem_of_cons in Hraw' as [->|Hraw'].
        -- left. rewrite Ht. cbn. set_solver.
        -- right. by exists raw'.
Qed.


Lemma drdb_token_wildcard raw apex :
  Str.lower (Str.strip raw) = "*." +:+ apex →
  drdb_token raw = if matches DOMAIN_RE apex then Some apex else None.
Proof.
  unfold drdb_token. cbn zeta. intros ->.
  change ("*." +:+ apex) with (String "*" (String "." apex)).
  assert (Str.startswith "*." (String "*" (String "." apex)) = true) as ->
    by (by destruct apex).
  reflexivity.
Qed.
End fetch.

(** C5, as stated, fails.  The server closes the connection in the middle
    of the body: [resp.read()] raises [http.client.IncompleteRead], an
    [HTTPException], which is a network error and neither a [URLError] nor
    an [OSError].  The handler lets it through, and the fetch ends with
    the exception instead of the empty set. *)
Lemma fetch_incomplete_read_propagates :
  let e := HTTPException "IncompleteRead(512 bytes read, 512 more expected)" in
  let w := one_file_world "allow-list.txt" (text_of_lines ["a.com"])
             (fun _ => Fails e) in
  network_error e = true
  ∧ urlopen w ZSCALER_DRDB_URL = Fails e
  ∧ fetch_zscaler_preselected w ZSCALER_DRDB_URL
    = ([UrlOpen ZSCALER_DRDB_URL], Raise e)
  ∧ (fetch_zscaler_preselected w ZSCALER_DRDB_URL).2 ≠ Val ∅
  ∧ ¬ (∀ e', network_error e' = true →
             urlopen w ZSCALER_DRDB_URL = Fails e' →
             (fetch_zscaler_preselected w ZSCALER_DRDB_URL).2 = Val ∅).
Proof.
  intros e w. split; [done|]. split; [done|]. split; [done|].
  split; [done|]. intros H. by specialize (H e eq_refl eq_refl).
Qed.



(** C8. The set that [fetch_zscaler_preselected] returns is not held to
    the grammar of the specification.  The wildcard prefix is stripped
    before the line is checked, but the check is the pattern [DOMAIN_RE],
    which looks at the hyphens of the first label only: the lines
    [a.-b.com] and [*.y.-z.com] put [a.-b.com] and [y.-z.com] in the set,
    and the grammar refuses both. *)
Theorem fetch_keeps_grammar_invalid_domains :
  let body := text_of_lines ["a.-b.com"; "*.y.-z.com"; "*.Example.com"] in
  let w := one_file_world "allow-list.txt" (text_of_lines ["a.com"])
             (fun _ => Body body) in
  fetch_zscaler_preselected w ZSCALER_DRDB_URL
  = ([UrlOpen ZSCALER_DRDB_URL], Val {[ "a.-b.com"; "y.-z.com"; "example.com" ]})
  ∧ spec_domain_grammar "a.-b.com" = false
  ∧ spec_domain_grammar "y.-z.com" = false
  ∧ spec_domain_grammar "example.com" = true
  ∧ matches DOMAIN_RE "a.-b.com" = true
  ∧ matches DOMAIN_RE "y.-z.com" = true.
Proof. vm_compute. repeat split; reflexivity. Qed.




(** ** [validate_pac] *)

Section validate.
Implicit Types (w : world) (pac : string).

(** [validate_pac] returns, or raises what a run of [node] raised; it
    never exits and writes nothing. *)
Lemma validate_pac_val w pac :
  ∃ t o, validate_pac w pac = (t, o)
         ∧ ((∃ b, o = Val b) ∨ (∃ e, o = Raise e))
         ∧ writes t = []
         ∧ Forall (fun e => event_step e = 4) t.
Proof.
  unfold validate_pac.
  repeat match goal with
  | |- context [if ?b then _ else _] => destruct b
  | |- context [match node w ?c with _ => _ end] => destruct (node w c)
  end; eexists _, _; (split; [reflexivity|]);
    (split; [first [left; by eexists | right; by eexists]|]);
    split; try reflexivity; repeat constructor.
Qed.
End validate.

(** C6. A document that lacks the marker [function FindProxyForURL], or a
    quoted [DIRECT] in either kind of quotes, or a quoted [PROXY] in
    either kind of quotes, is refused: [validate_pac] returns [False] and
    prints one message, which names a check the document fails.  The
    engine is not run for that verdict, which is the same whatever [node]
    would answer. *)
Theorem validate_pac_structural (w : world) (pac : string) :
  missing_function pac = true ∨ missing_direct pac = true
  ∨ missing_proxy pac = true →
  ∃ m, validate_pac w pac = ([Stderr m], Val false)
       ∧ ((m = ValMissingFunction ∧ missing_function pac = true)
          ∨ (m = ValNoDirect ∧ missing_direct pac = true)
          ∨ (m = ValNoProxy ∧ missing_proxy pac = true))
       ∧ ∀ w', validate_pac w' pac = validate_pac w pac.
Proof.
  unfold missing_function, missing_direct, missing_proxy, validate_pac.
  destruct (negb (Str.contains "function FindProxyForURL" pac)) eqn:Hf.
  { intros _. exists ValMissingFunction. split; [done|]. split; [by left|done]. }
  destruct (negb (Str.contains (dq "DIRECT" +:+ String Char.dquote "") pac)
            && negb (Str.contains (sq "DIRECT" +:+ String Char.squote "") pac))
    eqn:Hd.
  { intros _. exists ValNoDirect. split; [done|].
    split; [right; by left|done]. }
  destruct (negb (Str.contains (dq "PROXY") pac)
            && negb (Str.contains (sq "PROXY") pac)) eqn:Hp.
  { intros _. exists ValNoProxy. split; [done|].
    split; [right; by right|done]. }
  by intros [?|[?|?]].
Qed.

Lemma validate_pac_structural_witness :
  let w := one_file_world "allow-list.txt" "a.com" offline in
  validate_pac w "var x = 1;" = ([Stderr ValMissingFunction], Val false)
  ∧ (∃ m, validate_pac w "function FindProxyForURL() { return 'PROXY 1'; }"
          = ([Stderr m], Val false))
  ∧ validate_pac w "function FindProxyForURL() { return 'DIRECT'; }"
    = ([Stderr ValNoProxy], Val false).
Proof.
  intros w. split; [reflexivity|]. split; [|reflexivity].
  destruct (validate_pac_structural w
              "function FindProxyForURL() { return 'PROXY 1'; }")
    as (m & Hm & _).
  - right. left. reflexivity.
  - exists m. exact Hm.
Defined.


(** ** [main] *)

Section main.
Implicit Types (w : world) (args : arguments) (ds : list string)
  (t : list event).

Lemma writes_app t1 t2 : writes (t1 ++ t2) = writes t1 ++ writes t2.
Proof. apply omap_app. Qed.

Lemma writes_cons e t : writes (e :: t) = writes [e] ++ writes t.
Proof. apply (writes_app [e] t). Qed.

Lemma writes_stderr (ms : list message) : writes (Stderr <$> ms) = [].
Proof. induction ms as [|m ms IH]; [done|]. exact IH. Qed.

(** The events of [parse_allow_list] are lines on the error stream. *)
Lemma parse_allow_list_trace w path :
  ∃ ms, (parse_allow_list w path).1 = Stderr <$> ms.
Proof.
  rewrite parse_allow_list_spec. destruct (files w path) as [[text|sofar e]|].
  - cbn zeta. destruct (omap _ _); by eexists.
  - by eexists.
  - by exists [ErrAllowListNotFound path].
Qed.

(** Steps 3 to 5, case by case. *)
Lemma main_publish_spec w args ds :
  let dir := template_dir_of w args in
  main_publish w args ds =
  match templates w dir with
  | None =>
      ([Call RenderPac; GetTemplate dir],
       Raise (OtherException "jinja2.exceptions.TemplateNotFound"))
  | Some template =>
      let pac := template ds in
      let done_ := write_output w args ds pac in
      if skip_validation args then
        ([Call RenderPac; GetTemplate dir] ++ done_.1, done_.2)
      else
        let checked := [Call RenderPac; GetTemplate dir; Call ValidatePac]
                         ++ (validate_pac w pac).1 in
        match (validate_pac w pac).2 with
        | Val true => (checked ++ done_.1, done_.2)
        | Val false => (checked ++ [Stderr ErrValidationFailed], Exit 1%Z)
        | Exit c => (checked, Exit c)
        | Raise e => (checked, Raise e)
        end
  end.
Proof.
  cbn zeta. unfold main_publish, render_pac, write_output.
  destruct (templates w (template_dir_of w args)) as [template|]; [|done].
  destruct (skip_validation args).
  { by destruct (write_error w (output_path args)). }
  cbn [negb]. unfold mbind, M_bind, emit, print, sys_exit, raise, mret, M_ret.
  cbn [fst snd app].
  destruct (validate_pac w (template ds)) as [tv [[]|c|e]];
    destruct (write_error w (output_path args));
    cbn [negb fst snd app]; by rewrite ?app_nil_r.
Qed.

(** Step 2, case by case. *)
Lemma main_dedup_spec w args ds :
  main_dedup w args ds =
  if skip_dedup args then ([], Val ds)
  else
    let f := fetch_zscaler_preselected w ZSCALER_DRDB_URL in
    match f.2 with
    | Val zs =>
        if decide (zs = ∅) then (Call FetchZscalerPreselected :: f.1, Val ds)
        else
          let kept := (deduplicate ds zs).1 in
          let removed := (deduplicate ds zs).2 in
          let report :=
            match removed with [] => [] | _ => [Stderr (Removed removed)] end in
          match kept with
          | [] =>
              (Call FetchZscalerPreselected :: f.1
                 ++ Call Deduplicate :: report ++ [Stderr ErrAllRemoved],
               Exit 1%Z)
          | _ =>
              (Call FetchZscalerPreselected :: f.1
                 ++ Call Deduplicate :: report, Val kept)
          end
    | Exit c => (Call FetchZscalerPreselected :: f.1, Exit c)
    | Raise e => (Call FetchZscalerPreselected :: f.1, Raise e)
    end.
Proof.
  unfold main_dedup. destruct (skip_dedup args); [done|]. cbn [negb].
  cbn zeta. unfold mbind, M_bind, emit, print, sys_exit, mret, M_ret.
  cbn [fst snd app].
  destruct (fetch_zscaler_preselected w ZSCALER_DRDB_URL) as [tf [zs|c|e]];
    cbn [fst snd]; [|done..].
  destruct (decide (zs = ∅)) as [->|Hne].
  - destruct (decide (∅ ≠ ∅)); [done|]. cbn. by rewrite app_nil_r.
  - destruct (decide (zs ≠ ∅)); [|done].
    destruct (deduplicate ds zs) as [kept removed]. cbn [fst snd].
    destruct removed, kept; cbn [fst snd app]; by rewrite ?app_nil_r.
Qed.

Lemma fetch_trace w url :
  writes (fetch_zscaler_preselected w url).1 = [].
Proof.
  unfold fetch_zscaler_preselected.
  destruct (urlopen w url) as [text|[r|r|r|n]]; done.
Qed.

Lemma main_dedup_writes w args ds : writes (main_dedup w args ds).1 = [].
Proof.
  rewrite main_dedup_spec. destruct (skip_dedup args); [done|]. cbn zeta.
  pose proof (fetch_trace w ZSCALER_DRDB_URL) as Hf.
  destruct (fetch_zscaler_preselected w ZSCALER_DRDB_URL) as [tf [zs|c|e]];
    cbn [fst snd] in *; [|done..].
  destruct (decide (zs = ∅)); [done|].
  destruct (deduplicate ds zs) as [kept removed]. cbn [fst snd].
  destruct removed, kept; cbn [fst snd writes omap list_omap];
    fold (writes (tf ++ Call Deduplicate :: [Stderr ErrAllRemoved]));
    rewrite ?(writes_app tf); try (by rewrite Hf).
  all: change (list_omap _ _ ?f (tf ++ ?l)) with (writes (tf ++ l));
    by rewrite writes_app, Hf.
Qed.

(** [main] as the sequence of its steps. *)
Lemma main_unfold w args :
  main w args =
  match (parse_allow_list w (allow_list_path args)).2 with
  | Val parsed =>
      let step2 := main_dedup w args parsed in
      let before :=
        Call ParseAllowList :: (parse_allow_list w (allow_list_path args)).1
          ++ Stderr (Loaded (length parsed) (allow_list_path args)) :: step2.1 in
      match step2.2 with
      | Val ds =>
          (before ++ (main_publish w args ds).1, (main_publish w args ds).2)
      | Exit c => (before, Exit c)
      | Raise e => (before, Raise e)
      end
  | Exit c =>
      (Call ParseAllowList :: (parse_allow_list w (allow_list_path args)).1, Exit c)
  | Raise e =>
      (Call ParseAllowList :: (parse_allow_list w (allow_list_path args)).1, Raise e)
  end.
Proof.
  unfold main. unfold mbind, M_bind, emit, print. cbn [fst snd app].
  destruct (parse_allow_list w (allow_list_path args)) as [tp [parsed|c|e]];
    cbn [fst snd]; [|done..].
  destruct (main_dedup w args parsed) as [td [ds|c|e]]; cbn [fst snd].
  - by rewrite <- app_assoc.
  - done.
  - done.
Qed.
End main.


Section outcome.
Implicit Types (w : world) (args : arguments) (ds : list string)
  (t : list event).

Lemma parse_allow_list_outcome w path :
  writes (parse_allow_list w path).1 = []
  ∧ ((parse_allow_list w path).2 = Exit 1%Z
     ∨ (∃ l, (parse_allow_list w path).2 = Val l)
     ∨ ∃ e, (parse_allow_list w path).2 = Raise e).
Proof.
  split.
  - destruct (parse_allow_list_trace w path) as [ms ->]. apply writes_stderr.
  - rewrite parse_allow_list_spec.
    destruct (files w path) as [[text|sofar e]|];
      [|right; right; by eexists|by left].
    cbn zeta. destruct (omap _ _); [by left|right; left; by eexists].
Qed.

Lemma fetch_outcome w url :
  (∃ zs, (fetch_zscaler_preselected w url).2 = Val zs)
  ∨ ∃ e, (fetch_zscaler_preselected w url).2 = Raise e.
Proof.
  unfold fetch_zscaler_preselected.
  destruct (urlopen w url) as [text|[r|r|r|n]];
    [left; by eexists | left; by eexists | left; by eexists
    | right; by eexists | right; by eexists].
Qed.

Lemma main_dedup_outcome w args ds :
  (∃ ds', (main_dedup w args ds).2 = Val ds')
  ∨ (main_dedup w args ds).2 = Exit 1%Z
  ∨ ∃ e, (main_dedup w args ds).2 = Raise e.
Proof.
  rewrite main_dedup_spec. destruct (skip_dedup args); [left; by eexists|].
  cbn zeta.
  destruct (fetch_outcome w ZSCALER_DRDB_URL) as [[zs Hz]|[e He]].
  - rewrite Hz. destruct (decide (zs = ∅)); [left; by eexists|].
    destruct ((deduplicate ds zs).1); [right; by left|left; by eexists].
  - rewrite He. right. right. by eexists.
Qed.

Lemma render_pac_val w ds dir pac :
  (render_pac w ds dir).2 = Val pac ↔
  ∃ template, templates w dir = Some template ∧ pac = template ds.
Proof.
  unfold render_pac. destruct (templates w dir) as [template|]; cbn.
  - split; [intros [= <-]; by eexists | by intros (? & [= <-] & ->)].
  - split; [done | by intros (? & ? & _)].
Qed.

(** Steps 3 to 5 either write the document last, all checks passed, or
    write nothing and end the run. *)
Lemma main_publish_outcome w args ds :
  (∃ pac pre,
      main_publish w args ds
      = (pre ++ [FileWrite (output_path args) pac;
                 Stderr (Generated (output_path args) (length ds))], Val tt)
      ∧ writes pre = []
      ∧ (render_pac w ds (template_dir_of w args)).2 = Val pac
      ∧ (skip_validation args = false → (validate_pac w pac).2 = Val true))
  ∨ (writes (main_publish w args ds).1 = []
     ∧ ((main_publish w args ds).2 = Exit 1%Z
        ∨ ∃ e, (main_publish w args ds).2 = Raise e)).
Proof.
  rewrite main_publish_spec. cbn zeta.
  destruct (templates w (template_dir_of w args)) as [template|] eqn:Ht;
    [|right; split; [done|right; by eexists]].
  unfold write_output.
  destruct (skip_validation args) eqn:Hs.
  - destruct (write_error w (output_path args)) as [e|];
      [right; split; [done|right; by eexists]|].
    left. exists (template ds), [Call RenderPac; GetTemplate (template_dir_of w args)].
    split; [done|]. split; [done|]. split; [|done].
    apply render_pac_val. by exists template.
  - destruct (validate_pac_val w (template ds))
      as (tv & o & Hv & [[b ->]|[e ->]] & Hw & _); rewrite Hv; cbn [fst snd].
    + destruct b.
      * destruct (write_error w (output_path args)) as [e|]; cbn [fst snd].
        { right. split; [by rewrite !writes_app, Hw|right; by eexists]. }
        left. exists (template ds),
          ([Call RenderPac; GetTemplate (template_dir_of w args); Call ValidatePac] ++ tv).
        split; [done|]. split; [by rewrite writes_app, Hw|].
        split; [apply render_pac_val; by exists template|].
        intros _. by rewrite Hv.
      * right. split; [|by left].
        cbn [fst]. by rewrite !writes_app, Hw.
    + right. split; [by rewrite writes_app, Hw|right; by eexists].
Qed.

(** A run either writes the document as its last effect but for the
    closing message, every step before having succeeded, or it writes
    nothing and ends with status 1. *)
Lemma main_outcome w args :
  (∃ parsed ds pac pre,
      (parse_allow_list w (allow_list_path args)).2 = Val parsed
      ∧ (main_dedup w args parsed).2 = Val ds
      ∧ (render_pac w ds (template_dir_of w args)).2 = Val pac
      ∧ (skip_validation args = false → (validate_pac w pac).2 = Val true)
      ∧ main w args
        = (pre ++ [FileWrite (output_path args) pac;
                   Stderr (Generated (output_path args) (length ds))], Val tt)
      ∧ writes pre = [])
  ∨ (writes (main w args).1 = []
     ∧ ((main w args).2 = Exit 1%Z ∨ ∃ e, (main w args).2 = Raise e)).
Proof.
  rewrite main_unfold.
  destruct (parse_allow_list_outcome w (allow_list_path args))
    as [Hwp [Hp|[[parsed Hp]|[e Hp]]]].
  { right. rewrite Hp. cbn [fst snd]. split; [exact Hwp|by left]. }
  2: { right. rewrite Hp. cbn [fst snd]. split; [exact Hwp|right; by eexists]. }
  rewrite Hp. cbn zeta.
  pose proof (main_dedup_writes w args parsed) as Hwd.
  assert (Hbefore : writes
    (Call ParseAllowList :: (parse_allow_list w (allow_list_path args)).1
       ++ Stderr (Loaded (length parsed) (allow_list_path args))
          :: (main_dedup w args parsed).1) = []).
  { rewrite writes_cons, writes_app, Hwp, (writes_cons (Stderr _)), Hwd.
    done. }
  destruct (main_dedup_outcome w args parsed) as [[ds Hd]|[Hd|[e Hd]]];
    rewrite Hd; [|right; split; [done|by left]
                 |right; split; [done|right; by eexists]].
  destruct (main_publish_outcome w args ds)
    as [(pac & pre & Hpub & Hwpre & Hr & Hv)|[Hwpub Hend]].
  - left. eexists parsed, ds, pac, (_ ++ pre). split; [done|]. split; [done|].
    split; [done|]. split; [done|]. rewrite Hpub. cbn [fst snd].
    split; [by rewrite <- app_assoc|]. by rewrite writes_app, Hbefore, Hwpre.
  - right. cbn [fst snd]. split; [by rewrite writes_app, Hbefore, Hwpub|].
    exact Hend.
Qed.
End outcome.

(** C7. A run of [main] ends with status 0 or 1.  When the status is not
    0 nothing has been written.  When it is 0, the allow list was parsed,
    step 2 returned a list, the template was rendered, validation passed
    unless it was skipped, and the write of the document to the output
    path is the only write and the last effect before the closing message.
    A missing allow list, one with no valid domain, the removal of all
    domains by deduplication and a failed validation each end the run
    with status 1. *)
Theorem main_writes_only_on_success (w : world) (args : arguments) :
  let r := main w args in
  (exit_status r = 0%Z ∨ exit_status r = 1%Z)
  ∧ (exit_status r ≠ 0%Z → written r = [])
  ∧ (exit_status r = 0%Z →
     ∃ parsed ds pac pre,
       (parse_allow_list w (allow_list_path args)).2 = Val parsed
       ∧ (main_dedup w args parsed).2 = Val ds
       ∧ (render_pac w ds (template_dir_of w args)).2 = Val pac
       ∧ (skip_validation args = false → (validate_pac w pac).2 = Val true)
       ∧ r.1 = pre ++ [FileWrite (output_path args) pac;
                       Stderr (Generated (output_path args) (length ds))]
       ∧ writes pre = []
       ∧ written r = [(output_path args, pac)])
  ∧ (files w (allow_list_path args) = None → exit_status r = 1%Z)
  ∧ (∀ text, files w (allow_list_path args) = Some (Readable text) →
       omap line_domain (Str.readlines text) = [] → exit_status r = 1%Z)
  ∧ (∀ parsed zs,
       skip_dedup args = false →
       (parse_allow_list w (allow_list_path args)).2 = Val parsed →
       (fetch_zscaler_preselected w ZSCALER_DRDB_URL).2 = Val zs →
       zs ≠ ∅ → (deduplicate parsed zs).1 = [] → exit_status r = 1%Z)
  ∧ (∀ parsed ds pac,
       skip_validation args = false →
       (parse_allow_list w (allow_list_path args)).2 = Val parsed →
       (main_dedup w args parsed).2 = Val ds →
       (render_pac w ds (template_dir_of w args)).2 = Val pac →
       (validate_pac w pac).2 = Val false → exit_status r = 1%Z).
Proof.
  cbn zeta. split; [|split; [|split; [|split; [|split; [|split]]]]].
  - destruct (main_outcome w args)
      as [(? & ? & ? & ? & _ & _ & _ & _ & -> & _)|[_ [H|[e H]]]];
      unfold exit_status; [by left|rewrite H; by right..].
  - destruct (main_outcome w args)
      as [(? & ? & ? & ? & _ & _ & _ & _ & -> & _)|[Hw _]]; [done|].
    intros _. exact Hw.
  - destruct (main_outcome w args)
      as [(parsed & ds & pac & pre & Hp & Hd & Hr & Hv & Hm & Hw)|[_ [H|[e H]]]];
      unfold exit_status; [|rewrite H; done..].
    intros _. exists parsed, ds, pac, pre. rewrite Hm. cbn [fst snd].
    repeat (split; [done|]). unfold written. cbn [fst].
    by rewrite writes_app, Hw.
  - intros Hf. rewrite main_unfold, parse_allow_list_spec, Hf. done.
  - intros text Hf Hnil. rewrite main_unfold, parse_allow_list_spec, Hf.
    cbn zeta. rewrite Hnil. done.
  - intros parsed zs Hs Hp Hz Hne Hk. rewrite main_unfold, Hp. cbn zeta.
    rewrite main_dedup_spec, Hs. cbn zeta. rewrite Hz.
    destruct (decide (zs = ∅)); [done|]. by rewrite Hk.
  - intros parsed ds pac Hs Hp Hd [template [Ht ->]]%render_pac_val Hv.
    rewrite main_unfold, Hp. cbn zeta. rewrite Hd.
    rewrite main_publish_spec. cbn zeta. rewrite Ht, Hs, Hv. done.
Qed.

Lemma main_writes_only_on_success_witness :
  let w := one_file_world "allow-list.txt" (text_of_lines ["example.com"]) offline in
  let missing :=
    {| allow_list := "missing.txt"; output := "proxy.pac"; template_dir := None;
       skip_dedup := false; skip_validation := false |} in
  let present :=
    {| allow_list := "allow-list.txt"; output := "proxy.pac"; template_dir := None;
       skip_dedup := false; skip_validation := false |} in
  exit_status (main w missing) = 1%Z
  ∧ written (main w missing) = []
  ∧ written (main w present) = [("proxy.pac", proxy_pac_j2 ["example.com"])].
Proof.
  intros w missing present.
  destruct (main_writes_only_on_success w missing) as (_ & Hnone & _ & Hmissing & _).
  pose proof (Hmissing eq_refl) as Hexit.
  split; [exact Hexit|]. split.
  - apply Hnone. rewrite Hexit. discriminate.
  - destruct (main_writes_only_on_success w present) as (_ & _ & Hok & _).
    destruct (Hok eq_refl) as (parsed & ds & pac & pre & _ & _ & _ & _ & _ & _ & Hw).
    rewrite Hw. by vm_compute.
Defined.


(** ** The steps of [main] in its trace *)

Section steps.
Implicit Types (w : world) (args : arguments) (ds : list string)
  (t : list event).

Lemma warnings_step lineno lines :
  Forall (fun e => event_step e = 1) (Stderr <$> warnings lineno lines).
Proof.
  revert lineno. induction lines as [|raw lines IH]; intros lineno;
    [constructor|].
  cbn [warnings]. rewrite fmap_app. apply Forall_app. split; [|apply IH].
  unfold line_warning. cbn zeta.
  destruct (Str.is_empty _ || Str.startswith "#" _); [constructor|].
  destruct (truthy _); [by repeat constructor|].
  destruct (matches _ _); by repeat constructor.
Qed.

Lemma parse_allow_list_step w path :
  Forall (fun e => event_step e = 1) (parse_allow_list w path).1.
Proof.
  rewrite parse_allow_list_spec.
  destruct (files w path) as [[text|sofar e]|];
    [|apply warnings_step|by repeat constructor].
  cbn zeta. destruct (omap _ _); cbn [fst]; [|apply warnings_step].
  rewrite fmap_app. apply Forall_app. split; [apply warnings_step|].
  by repeat constructor.
Qed.

Lemma fetch_step w url :
  Forall (fun e => event_step e = 2 ∧ removal_event e = false)
    (fetch_zscaler_preselected w url).1.
Proof.
  unfold fetch_zscaler_preselected.
  destruct (urlopen w url) as [text|[r|r|r|n]]; by repeat constructor.
Qed.

Lemma main_publish_step w args ds :
  Forall (fun e => 3 ≤ event_step e) (main_publish w args ds).1.
Proof.
  rewrite main_publish_spec. cbn zeta.
  destruct (templates w _) as [template|];
    [|repeat constructor; cbn; lia].
  assert (Forall (fun e => 3 ≤ event_step e)
            (write_output w args ds (template ds)).1) as Hout.
  { unfold write_output. destruct (write_error w _);
      repeat constructor; cbn; lia. }
  destruct (skip_validation args).
  { cbn [fst]. repeat (constructor; [cbn; lia|]). exact Hout. }
  destruct (validate_pac_val w (template ds)) as (tv & o & Hv & _ & _ & Hstep).
  rewrite Hv. cbn [fst snd].
  assert (Forall (fun e => 3 ≤ event_step e) tv) as Htv.
  { eapply Forall_impl; [exact Hstep|]. intros e He. cbn beta in He. lia. }
  destruct o as [[]|c|e]; cbn [fst]; repeat (constructor; [cbn; lia|]);
    rewrite ?Forall_app; repeat split; try done; repeat constructor; cbn; lia.
Qed.

Lemma removal_event_step e : removal_event e = true → event_step e = 2.
Proof. destruct e as [[]| | | | |[]]; done. Qed.
End steps.

(** C10. With [--skip-dedup], step 2 does nothing: it hands over the list
    it was given, so the list that is rendered is the result of the
    parser; the trace of the run holds no event of step 2 (no call of the
    fetcher, no request, no call of [deduplicate]); and the run is the same
    whatever the network would answer.  Without [--skip-dedup], when the
    fetcher returns the empty set, step 2 also hands over the list it was
    given, and no call of [deduplicate], no report of removals and no
    error that all domains were removed is in the trace. *)
Theorem skip_dedup_bypasses_step2 (w : world) (args : arguments) :
  (skip_dedup args = true →
     (∀ ds, main_dedup w args ds = ([], Val ds))
     ∧ main w args
       = (emit (Call ParseAllowList);;
          parsed ← parse_allow_list w (allow_list_path args);
          print (Loaded (length parsed) (allow_list_path args));;
          main_publish w args parsed)
     ∧ Forall (fun e => event_step e ≠ 2) (main w args).1
     ∧ ∀ net, main (with_urlopen net w) args = main w args)
  ∧ (skip_dedup args = false →
     (fetch_zscaler_preselected w ZSCALER_DRDB_URL).2 = Val ∅ →
     (∀ ds, main_dedup w args ds
            = (Call FetchZscalerPreselected
                 :: (fetch_zscaler_preselected w ZSCALER_DRDB_URL).1, Val ds))
     ∧ main w args
       = (emit (Call ParseAllowList);;
          parsed ← parse_allow_list w (allow_list_path args);
          print (Loaded (length parsed) (allow_list_path args));;
          emit (Call FetchZscalerPreselected);;
          fetch_zscaler_preselected w ZSCALER_DRDB_URL;;
          main_publish w args parsed)
     ∧ Forall (fun e => removal_event e = false) (main w args).1).
Proof.
  split.
  - intros Hs.
    assert (Hd : ∀ w' ds, skip_dedup args = true → main_dedup w' args ds = ([], Val ds)).
    { intros w' ds Hs'. by rewrite main_dedup_spec, Hs'. }
    assert (Hm : ∀ w', main w' args
       = (emit (Call ParseAllowList);;
          parsed ← parse_allow_list w' (allow_list_path args);
          print (Loaded (length parsed) (allow_list_path args));;
          main_publish w' args parsed)).
    { intros w'. unfold main. unfold mbind, M_bind, emit, print.
      cbn [fst snd app].
      destruct (parse_allow_list w' (allow_list_path args)) as [tp [parsed|c|e]];
        cbn [fst snd]; [|done..].
      rewrite (Hd w' parsed Hs). cbn [fst snd app]. done. }
    split; [intros ds; by apply Hd|]. split; [apply Hm|]. split.
    + rewrite main_unfold.
      pose proof (parse_allow_list_step w (allow_list_path args)) as Hp.
      assert (Hp' : Forall (fun e => event_step e ≠ 2)
                      (parse_allow_list w (allow_list_path args)).1).
      { eapply Forall_impl; [exact Hp|]. intros e He. cbn beta in He. lia. }
      destruct ((parse_allow_list w (allow_list_path args)).2) as [parsed|c|e];
        [|by constructor..].
      cbn zeta. rewrite (Hd w parsed Hs). cbn [fst snd].
      constructor; [done|].
      apply Forall_app. split; [apply Forall_app; split; [done|by repeat constructor]|].
      eapply Forall_impl; [apply main_publish_step|].
      intros e He. cbn beta in He. lia.
    + intros net. rewrite (Hm w), (Hm (with_urlopen net w)). done.
  - intros Hs Hf.
    assert (Hd : ∀ ds, main_dedup w args ds
            = (Call FetchZscalerPreselected
                 :: (fetch_zscaler_preselected w ZSCALER_DRDB_URL).1, Val ds)).
    { intros ds. rewrite main_dedup_spec, Hs. cbn zeta. rewrite Hf.
      by destruct (decide (∅ = ∅)). }
    split; [exact Hd|]. split.
    + unfold main. unfold mbind, M_bind, emit, print. cbn [fst snd app].
      destruct (parse_allow_list w (allow_list_path args)) as [tp [parsed|c|e]];
        cbn [fst snd]; [|done..].
      rewrite (Hd parsed). rewrite Hf. cbn [fst snd app]. done.
    + rewrite main_unfold.
      pose proof (parse_allow_list_step w (allow_list_path args)) as Hp.
      assert (Hp' : Forall (fun e => removal_event e = false)
                      (parse_allow_list w (allow_list_path args)).1).
      { eapply Forall_impl; [exact Hp|]. intros e He. cbn beta in He.
        destruct (removal_event e) eqn:Hr; [|done].
        apply removal_event_step in Hr. lia. }
      destruct ((parse_allow_list w (allow_list_path args)).2) as [parsed|c|e];
        [|by constructor..].
      cbn zeta. rewrite (Hd parsed). cbn [fst snd].
      constructor; [done|]. apply Forall_app. split.
      * apply Forall_app. split; [done|]. constructor; [done|].
        constructor; [done|].
        eapply Forall_impl; [apply fetch_step|]. by intros e [_ He].
      * eapply Forall_impl; [apply main_publish_step|].
        intros e He. cbn beta in He.
        destruct (removal_event e) eqn:Hr; [|done].
        apply removal_event_step in Hr. lia.
Qed.

Lemma skip_dedup_bypasses_step2_witness :
  let w := one_file_world "allow-list.txt" (text_of_lines ["example.com"])
             (fun _ => Body "example.com") in
  let skip :=
    {| allow_list := "allow-list.txt"; output := "proxy.pac"; template_dir := None;
       skip_dedup := true; skip_validation := false |} in
  let dedup :=
    {| allow_list := "allow-list.txt"; output := "proxy.pac"; template_dir := None;
       skip_dedup := false; skip_validation := false |} in
  main_dedup w skip ["example.com"] = ([], Val ["example.com"])
  ∧ main (with_urlopen offline w) skip = main w skip
  ∧ (main_dedup (with_urlopen offline w) dedup ["example.com"]).2
    = Val ["example.com"].
Proof.
  intros w skip dedup.
  destruct (skip_dedup_bypasses_step2 w skip) as [Hskip _].
  destruct (Hskip eq_refl) as (Hd & _ & _ & Hnet).
  destruct (skip_dedup_bypasses_step2 (with_urlopen offline w) dedup) as [_ Hempty].
  destruct (Hempty eq_refl eq_refl) as (Hd' & _).
  split; [apply Hd|]. split; [apply Hnet|]. by rewrite Hd'.
Defined.


(** ** The template *)

Section template.
Implicit Types (domains : list string) (s : string).

Lemma str_app_assoc s1 s2 s3 : (s1 +:+ s2) +:+ s3 = s1 +:+ s2 +:+ s3.
Proof.
  induction s1 as [|c s1 IH]; [done|].
  change (String c ((s1 +:+ s2) +:+ s3) = String c (s1 +:+ s2 +:+ s3)).
  by rewrite IH.
Qed.

Lemma entries_lines_from n i domains :
  n = i + length domains →
  entries domains
  = foldr String.append "" (imap (fun j => entry_line n (i + j)) domains).
Proof.
  revert i. induction domains as [|d rest IH]; intros i Hn; [done|].
  cbn [entries]. rewrite imap_cons. cbn [foldr].
  rewrite (IH (S i)) by (simpl in Hn; lia).
  assert ((match rest with [] => "" | _ => "," end)
          = (if Nat.ltb (S i) n then "," else "")) as ->.
  { destruct rest as [|d' rest]; simpl in Hn.
    - assert (Nat.ltb (S i) n = false) as -> by (apply Nat.ltb_ge; lia).
      done.
    - assert (Nat.ltb (S i) n = true) as -> by (apply Nat.ltb_lt; lia).
      done. }
  unfold entry_line at 2. rewrite Nat.add_0_r. unfold dq.
  rewrite !str_app_assoc. do 5 f_equal. f_equal.
  apply imap_ext. intros j x _. cbn. by rewrite Nat.add_succ_r.
Qed.

Lemma entries_lines domains : entries domains = entry_lines domains.
Proof. unfold entry_lines. by rewrite (entries_lines_from (length domains) 0). Qed.
End template.

(** C9. The rendering of the template lays the domains out between the
    opening and the closing bracket of the list literal one per line, in
    the order of the input: the line of the [i]-th domain is the domain in
    double quotes, followed by a comma unless the domain is the last, and
    a line feed.  For no domain the literal is an opening bracket, a line
    feed and the closing bracket.  The text ends with a line feed, and
    [render_pac] returns the text unchanged. *)
Theorem render_list_literal (domains : list string) :
  proxy_pac_j2 domains
  = pac_head (length domains) +:+
    "    var allowed = [" +:+ nl +:+ entry_lines domains +:+ "    ];" +:+ nl +:+
    pac_tail
  ∧ (∀ i d, domains !! i = Some d →
       imap (entry_line (length domains)) domains !! i
       = Some (indent +:+ String Char.dquote d +:+ String Char.dquote "" +:+
               (if decide (S i = length domains) then "" else ",") +:+ nl))
  ∧ Str.contains ("var allowed = [" +:+ nl +:+ "    ];") (proxy_pac_j2 []) = true
  ∧ last (Str.chars (proxy_pac_j2 domains)) = Some Char.newline
  ∧ ∀ w dir, templates w dir = Some proxy_pac_j2 →
      render_pac w domains dir
      = ([GetTemplate dir], Val (proxy_pac_j2 domains)).
Proof.
  split; [|split; [|split; [|split]]].
  - unfold proxy_pac_j2. by rewrite entries_lines.
  - intros i d Hd. rewrite list_lookup_imap, Hd. cbn. unfold entry_line.
    do 4 f_equal. apply lookup_lt_Some in Hd.
    destruct (decide (S i = length domains)) as [He|He].
    + assert (Nat.ltb (S i) (length domains) = false) as ->
        by (apply Nat.ltb_ge; lia).
      done.
    + assert (Nat.ltb (S i) (length domains) = true) as ->
        by (apply Nat.ltb_lt; lia).
      done.
  - by vm_compute.
  - unfold proxy_pac_j2, pac_tail. rewrite !chars_app, !app_assoc. apply last_snoc.
  - intros w dir Ht. unfold render_pac. by rewrite Ht.
Qed.

Lemma render_list_literal_witness :
  let domains := ["a.com"; "b.com"; "c.com"] in
  imap (entry_line 3) domains !! 2
  = Some (indent +:+ String Char.dquote "c.com" +:+ String Char.dquote "" +:+ nl)
  ∧ (render_pac (one_file_world "allow-list.txt" "a.com" offline) domains "templates").2
    = Val (proxy_pac_j2 domains).
Proof.
  intros domains.
  destruct (render_list_literal domains) as (_ & Hline & _ & _ & Hrender).
  split.
  - exact (Hline 2 "c.com" eq_refl).
  - by rewrite (Hrender (one_file_world "allow-list.txt" "a.com" offline)
                  "templates" eq_refl).
Defined.


(** * The tests of the repository, run on the model

    [tests/test_pacbuilder.py], test by test. *)

Section tests.

Example test_parse_allow_list_basic :
  (parse_allow_list (tmp (text_of_lines ["example.com"; "test.org"])) "allow.txt").2
  = Val ["example.com"; "test.org"].
Proof. by vm_compute. Qed.

Example test_parse_allow_list_deduplicates_and_sorts :
  (parse_allow_list
     (tmp (text_of_lines ["zebra.com"; "alpha.com"; "zebra.com"])) "allow.txt").2
  = Val ["alpha.com"; "zebra.com"].
Proof. by vm_compute. Qed.

Example test_parse_allow_list_skips_blanks_and_comments :
  (parse_allow_list
     (tmp (text_of_lines
             ["# comment"; ""; "example.com"; "   "; "# another"; "test.org"]))
     "allow.txt").2
  = Val ["example.com"; "test.org"].
Proof. by vm_compute. Qed.

Example test_parse_allow_list_lowercases :
  (parse_allow_list (tmp (text_of_lines ["Example.COM"])) "allow.txt").2
  = Val ["example.com"].
Proof. by vm_compute. Qed.

Example test_parse_allow_list_skips_invalid :
  parse_allow_list
    (tmp (text_of_lines ["good.com"; "https://bad.com"; "-bad.com"; "good2.org"]))
    "allow.txt"
  = ([Stderr (WarnInvalidChars 2 "':'" "https://bad.com");
      Stderr (WarnInvalidDomain 3 "-bad.com")],
     Val ["good.com"; "good2.org"]).
Proof. by vm_compute. Qed.

Example test_parse_allow_list_missing_file :
  parse_allow_list (tmp "example.com") "missing.txt"
  = ([Stderr (ErrAllowListNotFound "missing.txt")], Exit 1%Z).
Proof. by vm_compute. Qed.

Example test_parse_allow_list_empty_file :
  parse_allow_list (tmp (text_of_lines ["# only comments"; ""])) "allow.txt"
  = ([Stderr ErrNoValidDomains], Exit 1%Z).
Proof. by vm_compute. Qed.

Example test_deduplicate_removes_matches :
  deduplicate ["a.com"; "b.com"; "c.com"] {["b.com"; "d.com"]}
  = (["a.com"; "c.com"], ["b.com"]).
Proof. by vm_compute. Qed.

Example test_deduplicate_no_overlap :
  deduplicate ["a.com"; "b.com"] {["x.com"; "y.com"]} = (["a.com"; "b.com"], []).
Proof. by vm_compute. Qed.

Example test_fetch_zscaler_preselected_parses_response :
  let body := text_of_lines
    ["example.com"; "*.wildcard.org"; "# comment"; ""; "bad---.invalid"; "test.net"] in
  (fetch_zscaler_preselected (with_urlopen (fun _ => Body body) (tmp ""))
     "http://fake").2
  = Val {["example.com"; "wildcard.org"; "test.net"]}.
Proof. by vm_compute. Qed.

Example test_fetch_zscaler_preselected_handles_failure :
  (fetch_zscaler_preselected
     (with_urlopen (fun _ => Fails (OSError "connection failed")) (tmp ""))
     "http://fake").2
  = Val ∅.
Proof. by vm_compute. Qed.

Example test_render_pac_single_domain :
  let pac := proxy_pac_j2 ["example.com"] in
  Str.contains "FindProxyForURL" pac = true
  ∧ Str.contains (dq "example.com" +:+ String Char.dquote "") pac = true
  ∧ Str.contains "DIRECT" pac = true
  ∧ Str.contains "PROXY 127.0.0.1:1" pac = true
  ∧ Str.contains "Domain count: 1" pac = true.
Proof. by vm_compute. Qed.

Example test_render_pac_multiple_domains :
  let pac := proxy_pac_j2 ["a.com"; "b.com"; "c.com"] in
  Str.contains (dq "a.com" +:+ String Char.dquote ",") pac = true
  ∧ Str.contains (dq "b.com" +:+ String Char.dquote ",") pac = true
  ∧ Str.contains (dq "c.com" +:+ String Char.dquote nl) pac = true
  ∧ Str.contains "Domain count: 3" pac = true.
Proof. by vm_compute. Qed.

Example test_render_pac_no_domains :
  Str.contains ("var allowed = [" +:+ nl +:+ "    ];") (proxy_pac_j2 []) = true.
Proof. by vm_compute. Qed.

Example test_validate_pac_valid :
  (validate_pac (tmp "") (proxy_pac_j2 ["example.com"])).2 = Val true.
Proof. by vm_compute. Qed.

Example test_validate_pac_missing_function :
  (validate_pac (tmp "") "var x = 1;").2 = Val false.
Proof. by vm_compute. Qed.

Example test_validate_pac_missing_direct :
  (validate_pac (tmp "") "function FindProxyForURL() { return 'PROXY 1'; }").2
  = Val false.
Proof. by vm_compute. Qed.

Example test_validate_pac_missing_proxy :
  (validate_pac (tmp "") "function FindProxyForURL() { return 'DIRECT'; }").2
  = Val false.
Proof. by vm_compute. Qed.
End tests.


(** * Further properties of the code *)

(** ** [_check_invalid_chars] *)

Section invalid_chars.
Implicit Types (c : ascii) (s line : string) (l : list ascii).

Global Instance char_le_trans : Transitive char_le.
Proof. intros a b c. unfold char_le. lia. Qed.

Global Instance char_le_total : Total char_le.
Proof. intros a b. unfold char_le. lia. Qed.

Lemma describe_char_nonempty c : Str.is_empty (describe_char c) = false.
Proof.
  unfold describe_char.
  repeat match goal with |- context [if ?b then _ else _] => destruct b end;
    reflexivity.
Qed.

Lemma join_nonempty sep s (ss : list string) :
  Str.is_empty s = false → Str.is_empty (Str.join sep (s :: ss)) = false.
Proof. destruct s; [done|]. intros _. by destruct ss. Qed.

Lemma findall_nil k s :
  findall k s = [] ↔ ∀ c, c ∈ Str.chars s → cls_mem k c = false.
Proof.
  unfold findall. induction (Str.chars s) as [|c l IH].
  - split; [|done]. intros _ c Hc. by apply not_elem_of_nil in Hc.
  - destruct (cls_mem k c) eqn:Hk.
    + rewrite filter_cons_True by done. split; [done|].
      intros H. specialize (H c (list_elem_of_here _ _)). congruence.
    + rewrite filter_cons_False by congruence. rewrite IH. split.
      * intros H c' [->|Hc']%elem_of_cons; auto.
      * intros H c' Hc'. apply H. by apply list_elem_of_further.
Qed.

Lemma elem_of_findall k s c :
  c ∈ findall k s ↔ c ∈ Str.chars s ∧ cls_mem k c = true.
Proof. unfold findall. rewrite list_elem_of_filter. tauto. Qed.

Lemma list_to_set_empty_nil l : (list_to_set l : gset ascii) = ∅ ↔ l = [].
Proof.
  split; [|by intros ->]. destruct l as [|c l]; [done|].
  intros H. assert (c ∈ (∅ : gset ascii)) as Hc; [|set_solver].
  rewrite <- H. set_solver.
Qed.

(** The branch taken, and the list the description is made from. *)
Lemma check_invalid_chars_cases line :
  (findall INVALID_CHARS_RE line = [] ∧ _check_invalid_chars line = None)
  ∨ ∃ c l,
      merge_sort char_le
        (elements (list_to_set (findall INVALID_CHARS_RE line) : gset ascii))
      = c :: l
      ∧ _check_invalid_chars line
        = Some (Str.join ", " (map describe_char (c :: l))).
Proof.
  unfold _check_invalid_chars. cbn zeta.
  destruct (decide (_ = ∅)) as [He|Hne].
  - left. split; [|done]. by apply list_to_set_empty_nil.
  - right.
    destruct (merge_sort char_le _) as [|c l] eqn:Hs; [|by exists c, l].
    exfalso. apply Hne.
    assert (elements (list_to_set (findall INVALID_CHARS_RE line) : gset ascii) = [])
      as Hel.
    { apply Permutation_nil_r. rewrite <- Hs. by rewrite merge_sort_Permutation. }
    apply elements_empty_inv in Hel. by apply leibniz_equiv.
Qed.
End invalid_chars.

(** X1. [_check_invalid_chars] returns [None] exactly when no character of
    the line is in the set of [INVALID_CHARS_RE]; a description it returns
    is never the empty string, so that the test [if bad_chars:] of the
    parser is true exactly when the line has an invalid character. *)
Theorem check_invalid_chars_none_iff (line : string) :
  (_check_invalid_chars line = None ↔
     ∀ c, c ∈ Str.chars line → cls_mem INVALID_CHARS_RE c = false)
  ∧ (∀ desc, _check_invalid_chars line = Some desc → Str.is_empty desc = false)
  ∧ (truthy (_check_invalid_chars line) = true ↔
       ∃ c, c ∈ Str.chars line ∧ cls_mem INVALID_CHARS_RE c = true).
Proof.
  assert (Hnone : _check_invalid_chars line = None ↔
     ∀ c, c ∈ Str.chars line → cls_mem INVALID_CHARS_RE c = false).
  { rewrite <- findall_nil.
    destruct (check_invalid_chars_cases line) as [[Hf Hn]|(c & l & Hs & Hd)].
    - by rewrite Hf, Hn.
    - rewrite Hd. split; [done|]. intros Hf. rewrite Hf in Hs. by vm_compute in Hs. }
  assert (Hsome : ∀ desc, _check_invalid_chars line = Some desc →
                          Str.is_empty desc = false).
  { intros desc.
    destruct (check_invalid_chars_cases line) as [[Hf Hn]|(c & l & Hs & Hd)].
    - by rewrite Hn.
    - rewrite Hd. intros [= <-]. apply join_nonempty, describe_char_nonempty. }
  split; [exact Hnone|]. split; [exact Hsome|].
  destruct (_check_invalid_chars line) as [desc|] eqn:Hc; cbn [truthy].
  - rewrite (Hsome desc eq_refl). split; [intros _|done].
    destruct (findall INVALID_CHARS_RE line) as [|c l] eqn:Hf.
    + pose proof (proj1 (findall_nil _ _) Hf) as Hall.
      apply Hnone in Hall. congruence.
    + exists c. apply elem_of_findall. rewrite Hf. apply list_elem_of_here.
  - split; [done|]. intros (c & Hin & Hk).
    rewrite (proj1 Hnone eq_refl c Hin) in Hk. done.
Qed.

Lemma check_invalid_chars_none_iff_witness :
  _check_invalid_chars "example.com" = None
  ∧ truthy (_check_invalid_chars "https://bad.com") = true.
Proof.
  destruct (check_invalid_chars_none_iff "example.com") as (Hnone & _ & _).
  destruct (check_invalid_chars_none_iff "https://bad.com") as (_ & _ & Htruthy).
  split.
  - apply Hnone. intros c Hc.
    apply (proj1 (findall_nil INVALID_CHARS_RE "example.com") eq_refl c Hc).
  - apply Htruthy. exists ":"%char. split; [|reflexivity].
    apply (list_elem_of_lookup_2 _ 5). reflexivity.
Defined.

(** X2. A description that [_check_invalid_chars] returns is the
    descriptions of the offending characters joined by a comma and a
    space: every invalid character that occurs in the line is described
    once, however often it occurs, and the characters come in the order of
    their code points. *)
Theorem check_invalid_chars_description (line desc : string) :
  _check_invalid_chars line = Some desc →
  ∃ l, desc = Str.join ", " (map describe_char l)
       ∧ StronglySorted char_le l
       ∧ NoDup l
       ∧ ∀ c, c ∈ l ↔ c ∈ Str.chars line ∧ cls_mem INVALID_CHARS_RE c = true.
Proof.
  destruct (check_invalid_chars_cases line) as [[Hf Hn]|(c & l & Hs & Hd)].
  - by rewrite Hn.
  - rewrite Hd. intros [= <-]. exists (c :: l). split; [done|].
    rewrite <- Hs. split; [apply StronglySorted_merge_sort; apply _|].
    split.
    + rewrite merge_sort_Permutation. apply NoDup_elements.
    + intros c'. rewrite merge_sort_Permutation, elem_of_elements,
        elem_of_list_to_set. apply elem_of_findall.
Qed.

Lemma check_invalid_chars_description_witness :
  ∃ l, Str.join ", " (map describe_char l) = "space, comma (,)"
       ∧ NoDup l.
Proof.
  destruct (check_invalid_chars_description "a ,b, c" "space, comma (,)")
    as (l & Hl & _ & Hnd & _).
  - by vm_compute.
  - exists l. split; [by rewrite <- Hl|exact Hnd].
Defined.


(** ** The parser: what it accepts and what it returns *)

Section parser_facts.
Implicit Types (c : ascii) (s d raw : string) (l ds lines : list string).

Lemma matches_clean raw :
  matches DOMAIN_RE (Str.lower (Str.strip raw)) = true →
  _check_invalid_chars (Str.lower (Str.strip raw)) = None
  ∧ Forall domain_char (Str.chars (Str.lower (Str.strip raw))).
Proof.
  intros Hm. apply DOMAIN_RE_lang in Hm.
  destruct (lang_shape _ Hm (lower_strip_last raw)) as [Hall _].
  split; [|done]. by apply check_invalid_chars_clean, findall_domain_chars.
Qed.

Lemma line_domain_Some raw d :
  line_domain raw = Some d →
  d = Str.lower (Str.strip raw) ∧ blank_or_comment raw = false
  ∧ matches DOMAIN_RE d = true ∧ Forall domain_char (Str.chars d)
  ∧ Str.lower d = d.
Proof.
  unfold line_domain, blank_or_comment. cbn zeta.
  destruct (Str.is_empty _ || Str.startswith "#" _); [done|].
  destruct (truthy _); [done|].
  destruct (matches _ _) eqn:Hm; [|done]. intros Hd.
  apply (inj Some) in Hd. subst d. split; [done|]. split; [done|].
  split; [done|]. split; [by apply matches_clean|]. apply lower_idemp.
Qed.

Lemma line_domain_decided raw :
  line_domain raw =
  if blank_or_comment raw then None
  else if matches DOMAIN_RE (Str.lower (Str.strip raw))
       then Some (Str.lower (Str.strip raw)) else None.
Proof.
  destruct (matches DOMAIN_RE (Str.lower (Str.strip raw))) eqn:Hm.
  - rewrite (matches_line_domain _ Hm).
    pose proof (matches_line_domain _ Hm) as Hd.
    apply line_domain_Some in Hd as (_ & -> & _). done.
  - unfold line_domain, blank_or_comment. cbn zeta. rewrite Hm.
    destruct (Str.is_empty _ || Str.startswith "#" _); [done|].
    by destruct (truthy _).
Qed.

Lemma parse_allow_list_value w path text :
  files w path = Some (Readable text) →
  (parse_allow_list w path).2 =
  match omap line_domain (Str.readlines text) with
  | [] => Exit 1%Z
  | ds => Val (sorted_set ds)
  end.
Proof.
  intros Hf. rewrite parse_allow_list_spec, Hf. cbn zeta.
  by destruct (omap _ _).
Qed.

Lemma sorted_set_ext ds1 ds2 :
  (∀ d, d ∈ ds1 ↔ d ∈ ds2) → sorted_set ds1 = sorted_set ds2.
Proof.
  intros H. unfold sorted_set.
  assert ((list_to_set ds1 : gset string) = list_to_set ds2) as ->; [|done].
  apply set_eq. intros d. rewrite !elem_of_list_to_set. apply H.
Qed.

(** A list that is sorted and free of duplicates is its own
    [sorted(set(...))]. *)
Lemma sorted_set_id l :
  StronglySorted String.le l → NoDup l → sorted_set l = l.
Proof.
  intros Hs Hn.
  apply (Sorted_unique String.le).
  - apply Sorted_merge_sort. apply _.
  - by apply StronglySorted_Sorted.
  - unfold sorted_set. rewrite merge_sort_Permutation.
    by apply elements_list_to_set.
Qed.
End parser_facts.

(** X3. Whether the parser keeps a line is decided by [DOMAIN_RE] alone:
    a line that is neither blank nor a comment is appended, stripped and in
    lower case, exactly when it matches the pattern, and is passed over
    otherwise.  The check for invalid characters never changes that: a line
    with an invalid character does not match the pattern, so the check
    only chooses which of the two warnings is printed. *)
Theorem parse_line_decided_by_pattern
    (lineno : nat) (raw : string) (domains : list string) :
  let line := Str.lower (Str.strip raw) in
  (parse_line lineno raw domains).2
  = Val (if blank_or_comment raw then domains
         else if matches DOMAIN_RE line then domains ++ [line] else domains)
  ∧ (truthy (_check_invalid_chars line) = true →
     matches DOMAIN_RE line = false
     ∧ (blank_or_comment raw = false →
        ∃ bad, (parse_line lineno raw domains).1
               = [Stderr (WarnInvalidChars lineno bad (Str.rstrip raw))])).
Proof.
  cbn zeta. rewrite parse_line_spec. cbn [fst snd]. split.
  - rewrite line_domain_decided. destruct (blank_or_comment raw);
      [by rewrite app_nil_r|].
    destruct (matches _ _); [done|by rewrite app_nil_r].
  - intros Ht. split.
    + destruct (matches _ _) eqn:Hm; [|done].
      apply matches_clean in Hm as [Hnone _]. by rewrite Hnone in Ht.
    + unfold blank_or_comment, line_warning. cbn zeta. intros ->.
      rewrite Ht. by eexists.
Qed.

Lemma parse_line_decided_by_pattern_witness :
  (parse_line 4 "https://bad.com" ["good.com"]).2 = Val ["good.com"]
  ∧ matches DOMAIN_RE "https://bad.com" = false.
Proof.
  destruct (parse_line_decided_by_pattern 4 "https://bad.com" ["good.com"])
    as [Hval Hbad].
  split; [exact Hval|]. apply Hbad. reflexivity.
Defined.

(** X4. [DOMAIN_RE] matches a subject exactly when the subject is a first
    label of 1 to 63 characters of [[A-Za-z0-9-]] that neither starts nor
    ends with a hyphen, then any number of labels of 1 to 63 characters of
    [[A-Za-z0-9-]], each after a dot, then a dot and a last label of two
    or more letters, then nothing or a single line feed. *)
Theorem DOMAIN_RE_language (s : string) :
  matches DOMAIN_RE s = true ↔
  ∃ first mids final tail,
    Str.chars s = first ++ dotted mids ++ "."%char :: final ++ tail
    ∧ (tail = [] ∨ tail = [Char.newline])
    ∧ 1 ≤ length first ≤ 63 ∧ in_cls LDH first
    ∧ head first ≠ Some "-"%char ∧ last first ≠ Some "-"%char
    ∧ Forall (fun w => 1 ≤ length w ≤ 63 ∧ in_cls LDH w) mids
    ∧ 2 ≤ length final ∧ in_cls ALPHA final.
Proof. exact (DOMAIN_RE_lang s). Qed.

Lemma DOMAIN_RE_language_witness : matches DOMAIN_RE "a.b-c.example" = true.
Proof.
  apply DOMAIN_RE_language.
  exists ["a"%char], [["b"; "-"; "c"]%char], (Str.chars "example"), [].
  split; [reflexivity|]. split; [by left|]. split; [simpl; lia|].
  split; [by repeat constructor|]. split; [done|]. split; [done|].
  split; [|split; [simpl; lia|by repeat constructor]].
  constructor; [|constructor]. split; [simpl; lia|by repeat constructor].
Defined.

(** X5. Every domain in a list that [parse_allow_list] returns is in lower
    case, matches [DOMAIN_RE], is made of letters, digits, hyphens and dots
    only, and is the stripped, lowered text of some line of the file; and
    the list is not empty. *)
Theorem parse_allow_list_result_invariant
    (w : world) (path : string) (l : list string) :
  (parse_allow_list w path).2 = Val l →
  l ≠ []
  ∧ ∀ d, d ∈ l →
      Str.lower d = d ∧ matches DOMAIN_RE d = true
      ∧ Forall domain_char (Str.chars d)
      ∧ ∃ text raw, files w path = Some (Readable text)
                    ∧ raw ∈ Str.readlines text
                    ∧ Str.lower (Str.strip raw) = d.
Proof.
  destruct (files w path) as [[text|sofar e]|] eqn:Hf;
    [|by rewrite parse_allow_list_spec, Hf..].
  rewrite (parse_allow_list_value _ _ _ Hf).
  destruct (omap line_domain (Str.readlines text)) as [|d0 ds] eqn:Hds; [done|].
  intros [= <-]. split.
  - intros Hnil. by apply (proj1 (sorted_set_nil _)) in Hnil.
  - intros d Hd. apply (proj1 (elem_of_sorted_set _ _)) in Hd.
    rewrite <- Hds in Hd.
    apply (proj1 (list_elem_of_omap _ _ _)) in Hd as (raw & Hraw & Hdom).
    apply line_domain_Some in Hdom as (-> & _ & Hm & Hall & Hlow).
    split; [done|]. split; [done|]. split; [done|]. by exists text, raw.
Qed.

Lemma parse_allow_list_result_invariant_witness :
  matches DOMAIN_RE "example.com" = true.
Proof.
  destruct (parse_allow_list_result_invariant
              (tmp (text_of_lines ["Example.COM"; "no good"])) "allow.txt"
              ["example.com"]) as [_ Hinv].
  - by vm_compute.
  - destruct (Hinv "example.com") as (_ & Hm & _); [apply list_elem_of_here|].
    exact Hm.
Defined.

(** X6. The result of [parse_allow_list] depends on the set of lines of
    the file only: two files with the same lines, in whatever order and
    however often repeated, give the same list or both end the run. *)
Theorem parse_allow_list_order_insensitive
    (w1 w2 : world) (path1 path2 text1 text2 : string) :
  files w1 path1 = Some (Readable text1) →
  files w2 path2 = Some (Readable text2) →
  (∀ raw, raw ∈ Str.readlines text1 ↔ raw ∈ Str.readlines text2) →
  (parse_allow_list w1 path1).2 = (parse_allow_list w2 path2).2.
Proof.
  intros Hf1 Hf2 Hlines.
  rewrite (parse_allow_list_value _ _ _ Hf1), (parse_allow_list_value _ _ _ Hf2).
  assert (Hds : ∀ d, d ∈ omap line_domain (Str.readlines text1)
                     ↔ d ∈ omap line_domain (Str.readlines text2)).
  { intros d. rewrite !list_elem_of_omap. by setoid_rewrite Hlines. }
  pose proof (sorted_set_ext _ _ Hds) as Hs.
  destruct (omap line_domain (Str.readlines text1)) as [|d1 ds1],
    (omap line_domain (Str.readlines text2)) as [|d2 ds2]; [done| | |by rewrite Hs].
  - exfalso. apply (not_elem_of_nil d2). apply Hds. apply list_elem_of_here.
  - exfalso. apply (not_elem_of_nil d1). apply Hds. apply list_elem_of_here.
Qed.

Lemma parse_allow_list_order_insensitive_witness :
  (parse_allow_list (tmp (text_of_lines ["zebra.com"; "alpha.com"; "zebra.com"]))
     "allow.txt").2
  = (parse_allow_list (tmp (text_of_lines ["alpha.com"; "zebra.com"])) "allow.txt").2.
Proof.
  apply (parse_allow_list_order_insensitive _ _ _ _
           (text_of_lines ["zebra.com"; "alpha.com"; "zebra.com"])
           (text_of_lines ["alpha.com"; "zebra.com"]));
    [reflexivity | reflexivity |].
  intros raw. change (Str.readlines (text_of_lines ["zebra.com"; "alpha.com"; "zebra.com"]))
    with [String.append "zebra.com" nl; String.append "alpha.com" nl;
          String.append "zebra.com" nl].
  change (Str.readlines (text_of_lines ["alpha.com"; "zebra.com"]))
    with [String.append "alpha.com" nl; String.append "zebra.com" nl].
  rewrite !elem_of_cons. pose proof (not_elem_of_nil raw). tauto.
Defined.


(** ** Writing a result back and reading it again *)

Section reparse.
Implicit Types (c : ascii) (s d raw cur rest : string) (l : list string).

Lemma append_cons c s1 s2 : String c s1 +:+ s2 = String c (s1 +:+ s2).
Proof. reflexivity. Qed.

Lemma rev_app_rev_app s1 s2 s3 :
  String.rev_app (String.rev_app s1 s2) s3 = String.rev_app s2 (s1 +:+ s3).
Proof.
  revert s2 s3. induction s1 as [|c s1 IH]; intros s2 s3; [done|].
  cbn [String.rev_app]. by rewrite IH.
Qed.

Lemma not_space_not_break c :
  Char.isspace c = false →
  Ascii.eqb c "010" = false ∧ Ascii.eqb c "013" = false.
Proof.
  destruct c as [[] [] [] [] [] [] [] []]; vm_compute;
    first [by split | discriminate].
Qed.

Lemma domain_char_not_space c : domain_char c → Char.isspace c = false.
Proof. intros [H| ->]; [by apply LDH_not_space|reflexivity]. Qed.

(** One line of text ended by a line feed is read as that line. *)
Lemma readlines_go_line d cur rest :
  Forall (fun c => Char.isspace c = false) (Str.chars d) →
  Str.readlines_go cur (d +:+ nl +:+ rest)
  = String.rev (String "010" (String.rev_app d cur)) :: Str.readlines_go "" rest.
Proof.
  revert cur. induction d as [|c d IH]; intros cur Hd.
  - reflexivity.
  - inversion Hd as [|? ? Hc Hd']; subst.
    destruct (not_space_not_break c Hc) as [Hlf Hcr].
    rewrite append_cons. cbn [Str.readlines_go]. rewrite Hlf, Hcr.
    by rewrite IH.
Qed.

Lemma readlines_text_of_lines l :
  Forall (fun d => Forall (fun c => Char.isspace c = false) (Str.chars d)) l →
  Str.readlines (text_of_lines l) = map (fun d => d +:+ nl) l.
Proof.
  unfold Str.readlines. induction 1 as [|d l Hd _ IH]; [done|].
  cbn [text_of_lines foldr map]. rewrite readlines_go_line by done.
  fold (text_of_lines l). rewrite IH. f_equal.
  unfold String.rev. change (String "010" (String.rev_app d ""))
    with (String.rev_app (String "010" "") (String.rev_app d "")).
  cbn [String.rev_app]. rewrite rev_app_rev_app. reflexivity.
Qed.

Lemma rstrip_line d :
  Forall (fun c => Char.isspace c = false) (Str.chars d) →
  Str.rstrip (d +:+ nl) = d.
Proof.
  induction d as [|c d IH]; intros Hd; [reflexivity|].
  inversion Hd as [|? ? Hc Hd']; subst.
  rewrite append_cons. cbn [Str.rstrip]. rewrite (IH Hd'), Hc.
  by rewrite andb_false_r.
Qed.

Lemma strip_line d :
  Forall (fun c => Char.isspace c = false) (Str.chars d) →
  Str.strip (d +:+ nl) = d.
Proof.
  intros Hd. unfold Str.strip. destruct d as [|c d]; [reflexivity|].
  rewrite append_cons. inversion Hd as [|? ? Hc Hd']; subst.
  cbn [Str.lstrip]. rewrite Hc. rewrite <- append_cons. by apply rstrip_line.
Qed.

Lemma line_domain_no_warning lineno raw d :
  line_domain raw = Some d → line_warning lineno raw = None.
Proof.
  unfold line_domain, line_warning. cbn zeta.
  destruct (Str.is_empty _ || Str.startswith "#" _); [done|].
  destruct (truthy _); [done|]. by destruct (matches _ _).
Qed.

Lemma warnings_nil lineno (lines : list string) :
  Forall (fun raw => is_Some (line_domain raw)) lines →
  warnings lineno lines = [].
Proof.
  intros H. revert lineno. induction H as [|raw lines [d Hd] _ IH]; intros lineno;
    [done|].
  cbn [warnings]. by rewrite (line_domain_no_warning _ _ _ Hd), IH.
Qed.

(** A domain as the parser returns it, on a line of its own, is read back
    as itself. *)
Lemma line_domain_line d :
  Str.lower d = d → matches DOMAIN_RE d = true →
  Forall domain_char (Str.chars d) →
  line_domain (d +:+ nl) = Some d.
Proof.
  intros Hlow Hm Hall.
  assert (Str.strip (d +:+ nl) = d) as Hstrip.
  { apply strip_line. eapply Forall_impl; [exact Hall|].
    intros c. apply domain_char_not_space. }
  rewrite <- Hlow at 2. rewrite <- Hstrip at 2.
  apply matches_line_domain. by rewrite Hstrip, Hlow.
Qed.
End reparse.

(** X7. A list that [parse_allow_list] returned, written to a file one
    domain per line, is parsed to the same list, and without a warning:
    parsing its own result changes nothing. *)
Theorem parse_allow_list_reparse
    (w : world) (path path' : string) (l : list string) (net : string → reply) :
  (parse_allow_list w path).2 = Val l →
  parse_allow_list (one_file_world path' (text_of_lines l) net) path'
  = ([], Val l).
Proof.
  intros Hl.
  assert (Hprops : ∀ d, d ∈ l →
            Str.lower d = d ∧ matches DOMAIN_RE d = true
            ∧ Forall domain_char (Str.chars d)).
  { destruct (files w path) as [[text|sofar e]|] eqn:Hf;
      [|by rewrite parse_allow_list_spec, Hf in Hl..].
    rewrite (parse_allow_list_value _ _ _ Hf) in Hl.
    destruct (omap line_domain (Str.readlines text)) as [|d0 ds] eqn:Hds; [done|].
    injection Hl as <-. intros d Hd.
    apply (proj1 (elem_of_sorted_set _ _)) in Hd. rewrite <- Hds in Hd.
    apply (proj1 (list_elem_of_omap _ _ _)) in Hd as (raw & _ & Hdom).
    apply line_domain_Some in Hdom as (_ & _ & Hm & Hall & Hlow). done. }
  assert (Hsorted : sorted_set l = l ∧ l ≠ []).
  { destruct (files w path) as [[text|sofar e]|] eqn:Hf;
      [|by rewrite parse_allow_list_spec, Hf in Hl..].
    rewrite (parse_allow_list_value _ _ _ Hf) in Hl.
    destruct (omap line_domain (Str.readlines text)) as [|d0 ds] eqn:Hds; [done|].
    injection Hl as <-. split.
    - apply sorted_set_id; [apply sorted_set_Sorted|apply sorted_set_NoDup].
    - intros Hnil. by apply (proj1 (sorted_set_nil _)) in Hnil. }
  destruct Hsorted as [Hid Hne].
  assert (Hlines : Str.readlines (text_of_lines l) = map (fun d => d +:+ nl) l).
  { apply readlines_text_of_lines. apply Forall_forall. intros d Hd.
    destruct (Hprops d Hd) as (_ & _ & Hall).
    eapply Forall_impl; [exact Hall|]. intros c. apply domain_char_not_space. }
  assert (Hdom : omap line_domain (map (fun d => d +:+ nl) l) = l).
  { clear Hid Hne Hlines Hl. induction l as [|d l IH]; [done|].
    cbn [map omap list_omap].
    destruct (Hprops d (list_elem_of_here _ _)) as (Hlow & Hm & Hall).
    rewrite (line_domain_line d Hlow Hm Hall). f_equal. apply IH.
    intros d' Hd'. apply Hprops. by apply list_elem_of_further. }
  rewrite parse_allow_list_spec. cbn [files one_file_world].
  rewrite String.eqb_refl. cbn zeta. rewrite Hlines, Hdom.
  rewrite warnings_nil.
  - destruct l; [done|]. by rewrite Hid.
  - apply Forall_forall. intros raw [d [-> Hd]]%list_elem_of_fmap.
    destruct (Hprops d Hd) as (Hlow & Hm & Hall).
    rewrite (line_domain_line d Hlow Hm Hall). by eexists.
Qed.

Lemma parse_allow_list_reparse_witness :
  parse_allow_list (tmp (text_of_lines ["alpha.com"; "zebra.com"])) "allow.txt"
  = ([], Val ["alpha.com"; "zebra.com"]).
Proof.
  apply (parse_allow_list_reparse
           (tmp (text_of_lines ["  Zebra.COM "; "# c"; "alpha.com"; "zebra.com"]))
           "allow.txt" "allow.txt" ["alpha.com"; "zebra.com"] offline).
  by vm_compute.
Defined.

(** X8. Every line of the file is accounted for once: it is blank or a
    comment, or it prints one warning, or it adds one domain.  The number
    of lines is the number of blank and comment lines plus the number of
    warnings printed plus the number of domains collected. *)
Theorem parse_lines_accounts_for_every_line (lineno : nat) (lines : list string) :
  ∃ ds, (parse_lines lineno lines []).2 = Val ds
        ∧ length lines
          = length (filter (fun raw => blank_or_comment raw = true) lines)
            + length (parse_lines lineno lines []).1 + length ds.
Proof.
  rewrite parse_lines_spec. cbn [fst snd app]. eexists. split; [done|].
  rewrite length_fmap. revert lineno.
  induction lines as [|raw lines IH]; intros lineno; [done|].
  cbn [warnings omap list_omap length]. rewrite length_app.
  specialize (IH (S lineno)).
  assert (Hline :
    length (option_list (line_warning lineno raw))
    + length (from_option (fun d => [d]) [] (line_domain raw))
    + (if blank_or_comment raw then 1 else 0) = 1).
  { unfold line_warning, line_domain, blank_or_comment. cbn zeta.
    destruct (Str.is_empty _ || Str.startswith "#" _); [done|].
    destruct (truthy _); [done|]. by destruct (matches _ _). }
  destruct (blank_or_comment raw) eqn:Hb.
  - rewrite filter_cons_True by done.
    destruct (line_domain raw); cbn [from_option length] in *; lia.
  - rewrite filter_cons_False by congruence.
    destruct (line_domain raw); cbn [from_option length] in *; lia.
Qed.


(** ** [deduplicate] and step 2 of [main] *)

Section dedup_facts.
Implicit Types (allow kept removed l : list string) (zs : gset string)
  (d : string).

Lemma filter_all {A} (P : A → Prop) `{∀ x, Decision (P x)} (l : list A) :
  Forall P l → filter P l = l.
Proof.
  induction 1 as [|x l Hx _ IH]; [done|].
  by rewrite filter_cons_True, IH.
Qed.

Lemma filter_none {A} (P : A → Prop) `{∀ x, Decision (P x)} (l : list A) :
  Forall (fun x => ¬ P x) l → filter P l = [].
Proof.
  induction 1 as [|x l Hx _ IH]; [done|].
  by rewrite filter_cons_False.
Qed.

Lemma Forall_filter_self {A} (P : A → Prop) `{∀ x, Decision (P x)} (l : list A) :
  Forall P (filter P l).
Proof. apply Forall_forall. intros x Hx. by apply list_elem_of_filter in Hx as [? _]. Qed.

Lemma StronglySorted_filter {A} (R : relation A) (P : A → Prop)
    `{∀ x, Decision (P x)} (l : list A) :
  StronglySorted R l → StronglySorted R (filter P l).
Proof.
  induction 1 as [|x l Hs IH Hx]; [constructor|].
  destruct (decide (P x)).
  - rewrite filter_cons_True by done. constructor; [done|].
    apply Forall_forall. intros y [_ Hy]%list_elem_of_filter.
    by eapply Forall_forall in Hx.
  - by rewrite filter_cons_False.
Qed.

Lemma parse_allow_list_sorted w path l :
  (parse_allow_list w path).2 = Val l →
  l ≠ [] ∧ StronglySorted String.le l ∧ NoDup l
  ∧ ∀ d, d ∈ l → matches DOMAIN_RE d = true.
Proof.
  intros Hl.
  destruct (files w path) as [[text|sofar e]|] eqn:Hf;
    [|by rewrite parse_allow_list_spec, Hf in Hl..].
  rewrite (parse_allow_list_value _ _ _ Hf) in Hl.
  destruct (omap line_domain (Str.readlines text)) as [|d0 ds] eqn:Hds; [done|].
  injection Hl as <-. split; [|split; [|split]].
  - intros Hnil. by apply (proj1 (sorted_set_nil _)) in Hnil.
  - apply sorted_set_Sorted.
  - apply sorted_set_NoDup.
  - intros d Hd. apply (proj1 (elem_of_sorted_set _ _)) in Hd.
    rewrite <- Hds in Hd.
    apply (proj1 (list_elem_of_omap _ _ _)) in Hd as (raw & _ & Hdom).
    by apply line_domain_Some in Hdom as (_ & _ & Hm & _).
Qed.
End dedup_facts.

(** X9. Deduplicating twice changes nothing: of the kept domains all are
    kept and none is removed, of the removed domains all are removed
    again; and no domain is lost or made up, the two results together are
    as long as the allow list. *)
Theorem deduplicate_idempotent (allow : list string) (zs : gset string) :
  let kept := (deduplicate allow zs).1 in
  let removed := (deduplicate allow zs).2 in
  deduplicate kept zs = (kept, [])
  ∧ deduplicate removed zs = ([], removed)
  ∧ length kept + length removed = length allow.
Proof.
  cbn zeta. rewrite !deduplicate_filter. cbn [fst snd]. split; [|split].
  - f_equal.
    + apply filter_all, Forall_filter_self.
    + apply filter_none. eapply Forall_impl; [apply Forall_filter_self|].
      intros d Hd. cbn beta in Hd. tauto.
  - f_equal.
    + apply filter_none. eapply Forall_impl; [apply Forall_filter_self|].
      intros d Hd. cbn beta in Hd. tauto.
    + apply filter_all, Forall_filter_self.
  - induction allow as [|d allow IH]; [done|].
    destruct (decide (d ∈ zs)).
    + rewrite (filter_cons_True (fun d => d ∈ zs)) by done.
      rewrite (filter_cons_False (fun d => d ∉ zs)) by tauto.
      cbn [length]. lia.
    + rewrite (filter_cons_False (fun d => d ∈ zs)) by done.
      rewrite (filter_cons_True (fun d => d ∉ zs)) by done.
      cbn [length]. lia.
Qed.

(** X10. [deduplicate] keeps what the parser established: of a sorted
    allow list without duplicates both results are sorted and without
    duplicates. *)
Theorem deduplicate_keeps_sorted (allow : list string) (zs : gset string) :
  StronglySorted String.le allow → NoDup allow →
  StronglySorted String.le (deduplicate allow zs).1
  ∧ NoDup (deduplicate allow zs).1
  ∧ StronglySorted String.le (deduplicate allow zs).2
  ∧ NoDup (deduplicate allow zs).2.
Proof.
  intros Hs Hn. rewrite deduplicate_filter. cbn [fst snd].
  split; [by apply StronglySorted_filter|]. split; [by apply NoDup_filter|].
  split; [by apply StronglySorted_filter|by apply NoDup_filter].
Qed.

Lemma deduplicate_keeps_sorted_witness :
  StronglySorted String.le (deduplicate ["a.com"; "b.com"; "c.com"] {["b.com"]}).1.
Proof.
  apply deduplicate_keeps_sorted.
  - repeat constructor.
  - repeat constructor; set_solver.
Defined.

(** X11. The list that step 2 of [main] hands to the renderer is a
    subsequence of the result of the parser, is not empty, is sorted and
    without duplicates, and, when deduplication is not skipped, holds no
    member of the fetched set. *)
Theorem main_dedup_result
    (w : world) (args : arguments) (parsed ds : list string) :
  (parse_allow_list w (allow_list_path args)).2 = Val parsed →
  (main_dedup w args parsed).2 = Val ds →
  sublist ds parsed ∧ ds ≠ []
  ∧ StronglySorted String.le ds ∧ NoDup ds
  ∧ (skip_dedup args = true → ds = parsed)
  ∧ (skip_dedup args = false →
     ∀ zs, (fetch_zscaler_preselected w ZSCALER_DRDB_URL).2 = Val zs →
           ∀ d, d ∈ ds → d ∉ zs).
Proof.
  intros (Hne & Hs & Hn & _)%parse_allow_list_sorted.
  rewrite main_dedup_spec.
  destruct (skip_dedup args).
  { intros [= <-]. repeat split; try done. }
  cbn zeta.
  destruct ((fetch_zscaler_preselected w ZSCALER_DRDB_URL).2) as [zs|c|e];
    [|done..].
  destruct (decide (zs = ∅)) as [->|Hzs].
  { intros [= <-]. split; [done|]. split; [done|]. split; [done|].
    split; [done|]. split; [done|]. intros _ zs' [= <-] d _. set_solver. }
  rewrite deduplicate_filter. cbn [fst snd].
  destruct (filter (fun d => d ∉ zs) parsed) as [|k ks] eqn:Hk; [done|].
  intros [= <-]. split; [rewrite <- Hk; apply sublist_filter|].
  split; [done|]. rewrite <- Hk.
  split; [by apply StronglySorted_filter|]. split; [by apply NoDup_filter|].
  split; [done|]. intros _ zs' [= <-] d Hd.
  by apply list_elem_of_filter in Hd as [? _].
Qed.

Lemma main_dedup_result_witness :
  let w := one_file_world "allow-list.txt" (text_of_lines ["b.com"; "a.com"])
             (fun _ => Body "*.B.com") in
  let args :=
    {| allow_list := "allow-list.txt"; output := "proxy.pac"; template_dir := None;
       skip_dedup := false; skip_validation := false |} in
  sublist ["a.com"] ["a.com"; "b.com"] ∧ "a.com" ∉ ({["b.com"]} : gset string).
Proof.
  intros w args.
  destruct (main_dedup_result w args ["a.com"; "b.com"] ["a.com"])
    as (Hsub & _ & _ & _ & _ & Hout).
  - by vm_compute.
  - by vm_compute.
  - split; [exact Hsub|].
    apply (Hout eq_refl {["b.com"]}); [by vm_compute|apply list_elem_of_here].
Defined.


(** ** The deep check of [validate_pac] *)

(** X12. For a document that has the three markers, the verdict of
    [validate_pac] is that of [node]: unless a run of [node] raises an
    exception other than the two that are handled, the document is refused
    exactly when the syntax check and then the parse with [new Function]
    both end with a status other than 0, and the message then carries the
    stripped error text of the second run.  A missing [node] and a run that
    times out let the document pass, and the second run is made only after
    a first run that ended with a status other than 0.  Any other exception
    of a run (a [ValueError] for a NUL character in the document, an
    [OSError] for a document too long for a command line) is not handled:
    [validate_pac] prints nothing more and raises it. *)
Theorem validate_pac_deep_check (w : world) (pac : string) :
  missing_function pac = false →
  missing_direct pac = false →
  missing_proxy pac = false →
  (validate_pac w pac).2
  = match node_raises w pac with
    | Some e => Raise e
    | None => Val (negb (node_rejects w pac))
    end
  ∧ (node w (NodeCheck pac) = FileNotFoundError →
     validate_pac w pac
     = ([RunNode (NodeCheck pac); Stderr NoteNodeNotFound], Val true))
  ∧ (node w (NodeCheck pac) = TimeoutExpired →
     validate_pac w pac
     = ([RunNode (NodeCheck pac); Stderr WarnNodeTimeout], Val true))
  ∧ (∀ e, node w (NodeCheck pac) = RunRaises e →
     validate_pac w pac = ([RunNode (NodeCheck pac)], Raise e))
  ∧ (∀ err, node w (NodeCheck pac) = Completed 0 err →
     validate_pac w pac = ([RunNode (NodeCheck pac); Stderr NodePassed], Val true))
  ∧ (∀ rc err, node w (NodeCheck pac) = Completed rc err →
     (RunNode (NodeNewFunction pac) ∈ (validate_pac w pac).1 ↔ rc ≠ 0%Z))
  ∧ (∀ rc err rc' err',
       node w (NodeCheck pac) = Completed rc err → rc ≠ 0%Z →
       node w (NodeNewFunction pac) = Completed rc' err' → rc' ≠ 0%Z →
       validate_pac w pac
       = ([RunNode (NodeCheck pac); RunNode (NodeNewFunction pac);
           Stderr (ValNode (Str.strip err'))], Val false))
  ∧ (∀ rc err e,
       node w (NodeCheck pac) = Completed rc err → rc ≠ 0%Z →
       node w (NodeNewFunction pac) = RunRaises e →
       validate_pac w pac
       = ([RunNode (NodeCheck pac); RunNode (NodeNewFunction pac)], Raise e)).
Proof.
  unfold missing_function, missing_direct, missing_proxy, validate_pac,
    node_rejects, node_raises.
  intros -> -> ->.
  split; [|split; [|split; [|split; [|split; [|split; [|split]]]]]].
  - destruct (node w (NodeCheck pac)) as [rc err| | |e]; [|done..].
    destruct (decide (rc ≠ 0%Z)) as [Hrc|Hrc].
    + rewrite (bool_decide_eq_true_2 _ Hrc).
      destruct (node w (NodeNewFunction pac)) as [rc' err'| | |e]; [|done..].
      destruct (decide (rc' ≠ 0%Z)) as [Hrc'|Hrc'].
      * by rewrite (bool_decide_eq_true_2 _ Hrc').
      * by rewrite (bool_decide_eq_false_2 _ Hrc').
    + by rewrite (bool_decide_eq_false_2 _ Hrc).
  - by intros ->.
  - by intros ->.
  - by intros e ->.
  - intros err ->. done.
  - intros rc err ->. destruct (decide (rc ≠ 0%Z)) as [Hrc|Hrc].
    + split; [done|]. intros _.
      destruct (node w (NodeNewFunction pac)) as [rc' err'| | |e];
        [destruct (decide (rc' ≠ 0%Z))|..]; cbn;
        apply list_elem_of_further, list_elem_of_here.
    + split; [|done]. cbn.
      intros [Heq|Hin]%elem_of_cons; [done|].
      apply list_elem_of_singleton in Hin. done.
  - intros rc err rc' err' -> Hrc -> Hrc'.
    destruct (decide (rc ≠ 0%Z)); [|done]. by destruct (decide (rc' ≠ 0%Z)).
  - intros rc err e -> Hrc ->. by destruct (decide (rc ≠ 0%Z)).
Qed.

Lemma validate_pac_deep_check_witness :
  let pac := proxy_pac_j2 ["example.com"] in
  let w := one_file_world "allow-list.txt" "example.com" offline in
  let too_long := OSError "[Errno 7] Argument list too long: 'node'" in
  validate_pac w pac
  = ([RunNode (NodeCheck pac); Stderr NoteNodeNotFound], Val true)
  ∧ validate_pac (with_node (fun _ => RunRaises too_long) w) pac
    = ([RunNode (NodeCheck pac)], Raise too_long).
Proof.
  intros pac w too_long. split.
  - destruct (validate_pac_deep_check w pac) as (_ & Hmissing & _);
      [by vm_compute..|].
    apply Hmissing. reflexivity.
  - destruct (validate_pac_deep_check (with_node (fun _ => RunRaises too_long) w) pac)
      as (_ & _ & _ & Hraise & _); [by vm_compute..|].
    apply Hraise. reflexivity.
Defined.

(** ** [fetch_zscaler_preselected] as a set *)

Section fetch_facts.
Implicit Types (zs : gset string) (raw d : string).

Lemma matches_not_blank_or_comment d :
  matches DOMAIN_RE d = true →
  Str.is_empty d || Str.startswith "#" d = false
  ∧ Str.startswith "*." d = false.
Proof.
  intros (c & t & -> & Hc)%matches_head. split.
  - unfold Str.startswith. cbn [Str.is_empty orb String.prefix].
    destruct (ascii_dec "#" c) as [<-|]; [|done]. by apply LDH_not_hash in Hc.
  - unfold Str.startswith. cbn [String.prefix].
    destruct (ascii_dec "*" c) as [<-|]; [|done]. by apply LDH_not_star in Hc.
Qed.

Lemma drdb_token_plain raw d :
  Str.lower (Str.strip raw) = d → matches DOMAIN_RE d = true →
  drdb_token raw = Some d.
Proof.
  intros Hline Hm. unfold drdb_token. cbn zeta. rewrite Hline.
  destruct (matches_not_blank_or_comment d Hm) as [-> ->]. by rewrite Hm.
Qed.
End fetch_facts.

(** X13. The set that [fetch_zscaler_preselected] returns depends on the
    set of lines of the fetched text only: two texts with the same lines,
    in whatever order and however often repeated, give the same set. *)
Theorem fetch_order_insensitive
    (w1 w2 : world) (url1 url2 text1 text2 : string) :
  urlopen w1 url1 = Body text1 →
  urlopen w2 url2 = Body text2 →
  (∀ raw, raw ∈ Str.splitlines text1 ↔ raw ∈ Str.splitlines text2) →
  (fetch_zscaler_preselected w1 url1).2 = (fetch_zscaler_preselected w2 url2).2.
Proof.
  intros Hu1 Hu2 Hlines. unfold fetch_zscaler_preselected.
  rewrite Hu1, Hu2. cbn. f_equal. apply set_eq. intros d.
  rewrite !elem_of_drdb_fold. by setoid_rewrite Hlines.
Qed.

Lemma fetch_order_insensitive_witness :
  (fetch_zscaler_preselected
     (with_urlopen (fun _ => Body (text_of_lines ["b.com"; "a.com"; "b.com"])) (tmp ""))
     "http://one").2
  = (fetch_zscaler_preselected
       (with_urlopen (fun _ => Body (text_of_lines ["a.com"; "b.com"])) (tmp ""))
       "http://two").2.
Proof.
  apply (fetch_order_insensitive _ _ _ _
           (text_of_lines ["b.com"; "a.com"; "b.com"])
           (text_of_lines ["a.com"; "b.com"])); [reflexivity..|].
  intros raw.
  change (Str.splitlines (text_of_lines ["b.com"; "a.com"; "b.com"]))
    with ["b.com"; "a.com"; "b.com"].
  change (Str.splitlines (text_of_lines ["a.com"; "b.com"])) with ["a.com"; "b.com"].
  rewrite !elem_of_cons. pose proof (not_elem_of_nil raw). tauto.
Defined.

(** X14. A wildcard entry and its apex are one entry: a line that reads
    [*.] followed by what another line reads adds to the set exactly what
    that other line adds, provided the other line is not a wildcard entry
    itself. *)
Theorem wildcard_same_as_apex (zs : gset string) (raw1 raw2 : string) :
  Str.lower (Str.strip raw1) = "*." +:+ Str.lower (Str.strip raw2) →
  Str.startswith "*." (Str.lower (Str.strip raw2)) = false →
  drdb_line zs raw1 = drdb_line zs raw2.
Proof.
  intros H1 H2. rewrite !drdb_line_token.
  rewrite (drdb_token_wildcard _ _ H1).
  destruct (matches DOMAIN_RE (Str.lower (Str.strip raw2))) eqn:Hm.
  - by rewrite (drdb_token_plain raw2 _ eq_refl Hm).
  - assert (drdb_token raw2 = None) as ->; [|done].
    unfold drdb_token. cbn zeta. rewrite H2, Hm.
    by destruct (Str.is_empty _ || Str.startswith "#" _).
Qed.

Lemma wildcard_same_as_apex_witness :
  drdb_line ∅ "*.Example.COM" = drdb_line ∅ "  example.com  ".
Proof.
  apply wildcard_same_as_apex; reflexivity.
Defined.


(** ** Whole runs of [main] *)

Section run_facts.
Implicit Types (w : world) (args : arguments) (parsed ds : list string).

Lemma main_before_writes w args parsed :
  writes (Call ParseAllowList :: (parse_allow_list w (allow_list_path args)).1
            ++ Stderr (Loaded (length parsed) (allow_list_path args))
               :: (main_dedup w args parsed).1) = [].
Proof.
  destruct (parse_allow_list_outcome w (allow_list_path args)) as [Hwp _].
  rewrite writes_cons, writes_app, Hwp, (writes_cons (Stderr _)).
  by rewrite main_dedup_writes.
Qed.


End run_facts.

(** X15. An exception of the fetcher that its handler does not name is
    not absorbed: it leaves [fetch_zscaler_preselected] without a warning,
    ends the run with status 1, and nothing of the later steps happens, no
    template is loaded and no file is written. *)
Theorem fetch_uncaught_exception_aborts
    (w : world) (args : arguments) (parsed : list string) (e : exn) :
  skip_dedup args = false →
  (parse_allow_list w (allow_list_path args)).2 = Val parsed →
  urlopen w ZSCALER_DRDB_URL = Fails e →
  handled_error e = false →
  fetch_zscaler_preselected w ZSCALER_DRDB_URL
  = ([UrlOpen ZSCALER_DRDB_URL], Raise e)
  ∧ (main w args).2 = Raise e
  ∧ exit_status (main w args) = 1%Z
  ∧ written (main w args) = []
  ∧ Forall (fun e => event_step e ≤ 2) (main w args).1.
Proof.
  intros Hs Hp Hu He.
  assert (Hf : fetch_zscaler_preselected w ZSCALER_DRDB_URL
               = ([UrlOpen ZSCALER_DRDB_URL], Raise e)).
  { unfold fetch_zscaler_preselected. rewrite Hu. by destruct e. }
  assert (Hd : main_dedup w args parsed
               = ([Call FetchZscalerPreselected; UrlOpen ZSCALER_DRDB_URL],
                  Raise e)).
  { by rewrite main_dedup_spec, Hs, Hf. }
  split; [exact Hf|].
  unfold exit_status, written. rewrite main_unfold, Hp. cbn zeta.
  pose proof (main_before_writes w args parsed) as Hw.
  rewrite Hd in *. cbn [fst snd] in *.
  split; [done|]. split; [done|]. split; [exact Hw|].
  constructor; [cbn; lia|]. apply Forall_app. split.
  - eapply Forall_impl; [apply parse_allow_list_step|].
    intros ev Hev. cbn beta in Hev. lia.
  - repeat constructor; cbn; lia.
Qed.

Lemma fetch_uncaught_exception_aborts_witness :
  let e := HTTPException "IncompleteRead(512 bytes read, 512 more expected)" in
  let w := one_file_world "allow-list.txt" (text_of_lines ["example.com"])
             (fun _ => Fails e) in
  let args :=
    {| allow_list := "./allow-list.txt"; output := "proxy.pac"; template_dir := None;
       skip_dedup := false; skip_validation := false |} in
  exit_status (main w args) = 1%Z ∧ written (main w args) = [].
Proof.
  intros e w args.
  destruct (fetch_uncaught_exception_aborts w args ["example.com"] e)
    as (_ & _ & Hexit & Hw & _).
  - reflexivity.
  - by vm_compute.
  - reflexivity.
  - reflexivity.
  - split; [exact Hexit|exact Hw].
Defined.



(** X17. A domain of the allow list that the fetched text lists, as it is
    or as a wildcard entry, in any letter case and with any white space
    around it, does not reach the renderer: step 2 reports it among the
    removed domains and the list it returns does not hold it. *)
Theorem listed_domain_is_removed
    (w : world) (args : arguments) (parsed : list string) (text raw d : string) :
  skip_dedup args = false →
  (parse_allow_list w (allow_list_path args)).2 = Val parsed →
  urlopen w ZSCALER_DRDB_URL = Body text →
  raw ∈ Str.splitlines text →
  Str.lower (Str.strip raw) = d ∨ Str.lower (Str.strip raw) = "*." +:+ d →
  d ∈ parsed →
  (∃ removed, Stderr (Removed removed) ∈ (main_dedup w args parsed).1
              ∧ d ∈ removed)
  ∧ ∀ ds, (main_dedup w args parsed).2 = Val ds → d ∉ ds.
Proof.
  intros Hs Hp Hu Hraw Hline Hd.
  apply parse_allow_list_sorted in Hp as (_ & _ & _ & Hm).
  specialize (Hm d Hd).
  assert (Htok : drdb_token raw = Some d).
  { destruct Hline as [Hline|Hline].
    - by apply drdb_token_plain.
    - by rewrite (drdb_token_wildcard _ _ Hline), Hm. }
  set (zs := foldl drdb_line ∅ (Str.splitlines text)).
  assert (Hf : fetch_zscaler_preselected w ZSCALER_DRDB_URL
               = ([UrlOpen ZSCALER_DRDB_URL], Val zs)).
  { unfold fetch_zscaler_preselected. by rewrite Hu. }
  assert (Hin : d ∈ zs).
  { apply elem_of_drdb_fold. right. by exists raw. }
  rewrite main_dedup_spec, Hs. cbn zeta. rewrite Hf. cbn [fst snd].
  destruct (decide (zs = ∅)) as [He|_]; [set_solver|].
  rewrite deduplicate_filter. cbn [fst snd].
  assert (Hrem : d ∈ filter (fun d => d ∈ zs) parsed)
    by (by apply list_elem_of_filter).
  assert (Hkept : d ∉ filter (fun d => d ∉ zs) parsed)
    by (intros [? _]%list_elem_of_filter; done).
  destruct (filter (fun d => d ∈ zs) parsed) as [|r rs] eqn:Hr;
    [by apply not_elem_of_nil in Hrem|].
  destruct (filter (fun d => d ∉ zs) parsed) as [|k ks] eqn:Hk; cbn [fst snd].
  - split; [|done]. exists (r :: rs). split; [|done].
    do 3 apply list_elem_of_further. apply list_elem_of_here.
  - split; [|by intros ds [= <-]]. exists (r :: rs). split; [|done].
    do 3 apply list_elem_of_further. apply list_elem_of_here.
Qed.

Lemma listed_domain_is_removed_witness :
  let w := one_file_world "allow-list.txt" (text_of_lines ["b.com"; "a.com"])
             (fun _ => Body (text_of_lines ["# drdb"; " *.B.COM "])) in
  let args :=
    {| allow_list := "allow-list.txt"; output := "proxy.pac"; template_dir := None;
       skip_dedup := false; skip_validation := false |} in
  (main_dedup w args ["a.com"; "b.com"]).2 = Val ["a.com"]
  ∧ "b.com" ∉ ["a.com"].
Proof.
  intros w args.
  destruct (listed_domain_is_removed w args ["a.com"; "b.com"]
              (text_of_lines ["# drdb"; " *.B.COM "]) " *.B.COM " "b.com")
    as [_ Hout].
  - reflexivity.
  - by vm_compute.
  - reflexivity.
  - apply (list_elem_of_lookup_2 _ 1). reflexivity.
  - right. reflexivity.
  - apply list_elem_of_further, list_elem_of_here.
  - split; [by vm_compute|]. apply Hout. by vm_compute.
Defined.

Section report_facts.
Implicit Types (allow : list string) (zs : gset string).

Lemma deduplicate_length allow zs :
  length (deduplicate allow zs).1 + length (deduplicate allow zs).2 = length allow.
Proof.
  rewrite deduplicate_filter. cbn [fst snd].
  induction allow as [|d allow IH]; [done|].
  destruct (decide (d ∈ zs)).
  - rewrite (filter_cons_True (fun d => d ∈ zs)) by done.
    rewrite (filter_cons_False (fun d => d ∉ zs)) by tauto.
    cbn [length]. lia.
  - rewrite (filter_cons_False (fun d => d ∈ zs)) by done.
    rewrite (filter_cons_True (fun d => d ∉ zs)) by done.
    cbn [length]. lia.
Qed.

Lemma fetch_no_removed w url removed :
  Stderr (Removed removed) ∉ (fetch_zscaler_preselected w url).1.
Proof.
  intros Hin. pose proof (fetch_step w url) as Hst.
  eapply Forall_forall in Hst; [|exact Hin]. by destruct Hst as [_ ?].
Qed.
End report_facts.

(** X18. The report of step 2 agrees with what it returns.  When the
    message that lists removed domains is printed, the list in it is not
    empty, its domains are domains of the parser's result that the
    returned list does not hold, and the two lists together are as long as
    the parser's result; when no such message is printed, the returned
    list is the parser's result unchanged. *)
Theorem removed_report_accounts
    (w : world) (args : arguments) (parsed ds : list string) (t : list event) :
  main_dedup w args parsed = (t, Val ds) →
  (∀ removed, Stderr (Removed removed) ∈ t →
     removed ≠ []
     ∧ length parsed = length removed + length ds
     ∧ ∀ d, d ∈ removed → d ∈ parsed ∧ d ∉ ds)
  ∧ ((∀ removed, Stderr (Removed removed) ∉ t) → ds = parsed).
Proof.
  rewrite main_dedup_spec. destruct (skip_dedup args).
  { intros [= <- <-]. split; [|done]. intros removed Hin.
    by apply not_elem_of_nil in Hin. }
  cbn zeta.
  pose proof (fun removed => fetch_no_removed w ZSCALER_DRDB_URL removed) as Hf.
  destruct (fetch_zscaler_preselected w ZSCALER_DRDB_URL) as [tf [zs|c|e]];
    cbn [fst snd] in *; [|done..].
  destruct (decide (zs = ∅)) as [->|Hzs].
  { intros [= <- <-]. split; [|done]. intros removed Hin.
    apply elem_of_cons in Hin as [Hin|Hin]; [done|]. by apply Hf in Hin. }
  pose proof (deduplicate_length parsed zs) as Hlen.
  rewrite deduplicate_filter in *. cbn [fst snd] in *.
  destruct (filter (fun d => d ∉ zs) parsed) as [|k ks] eqn:Hk; [done|].
  intros [= <- <-]. split.
  - intros removed Hin.
    apply elem_of_cons in Hin as [Hin|Hin]; [done|].
    apply elem_of_app in Hin as [Hin|Hin]; [by apply Hf in Hin|].
    apply elem_of_cons in Hin as [Hin|Hin]; [done|].
    destruct (filter (fun d => d ∈ zs) parsed) as [|r rs] eqn:Hr;
      [by apply not_elem_of_nil in Hin|].
    apply list_elem_of_singleton in Hin. injection Hin as ->.
    split; [done|]. split; [lia|]. intros d Hd. rewrite <- Hr in Hd.
    apply list_elem_of_filter in Hd as [Hz Hp]. split; [done|].
    rewrite <- Hk. intros [? _]%list_elem_of_filter. done.
  - intros Hno.
    destruct (filter (fun d => d ∈ zs) parsed) as [|r rs] eqn:Hr.
    + rewrite <- Hk. apply filter_all. apply Forall_forall. intros d Hd Hz.
      assert (d ∈ filter (fun d => d ∈ zs) parsed) as Hin
        by (by apply list_elem_of_filter).
      rewrite Hr in Hin. by apply not_elem_of_nil in Hin.
    + exfalso. apply (Hno (r :: rs)).
      apply list_elem_of_further, elem_of_app. right.
      apply list_elem_of_further, list_elem_of_here.
Qed.

Lemma removed_report_accounts_witness :
  let w := one_file_world "allow-list.txt" (text_of_lines ["b.com"; "a.com"])
             (fun _ => Body "b.com") in
  let args :=
    {| allow_list := "allow-list.txt"; output := "proxy.pac"; template_dir := None;
       skip_dedup := false; skip_validation := false |} in
  length ["a.com"; "b.com"] = length ["b.com"] + length ["a.com"].
Proof.
  intros w args.
  destruct (removed_report_accounts w args ["a.com"; "b.com"] ["a.com"]
              [Call FetchZscalerPreselected; UrlOpen ZSCALER_DRDB_URL;
               Call Deduplicate; Stderr (Removed ["b.com"])])
    as [Hrep _].
  - by vm_compute.
  - destruct (Hrep ["b.com"]) as (_ & Hlen & _); [|exact Hlen].
    do 3 apply list_elem_of_further. apply list_elem_of_here.
Defined.

(** X20. [main] uses the allow-list path and the output path as [pathlib]
    writes them, not as they were typed: two command lines whose paths
    have the same normal form, and which agree on the template directory
    and on the two flags, give the same run, message for message and
    write for write. *)
Theorem main_paths_normalised (w : world) (a1 a2 : arguments) :
  Path.str (allow_list a1) = Path.str (allow_list a2) →
  Path.str (output a1) = Path.str (output a2) →
  template_dir a1 = template_dir a2 →
  skip_dedup a1 = skip_dedup a2 →
  skip_validation a1 = skip_validation a2 →
  main w a1 = main w a2.
Proof.
  intros Ha Ho Ht Hd Hv.
  unfold main, main_dedup, main_publish, template_dir_of, allow_list_path,
    output_path.
  by rewrite Ha, Ho, Ht, Hd, Hv.
Qed.

Lemma main_paths_normalised_witness :
  let w := one_file_world "allow-list.txt" (text_of_lines ["a.com"]) offline in
  let typed :=
    {| allow_list := "./allow-list.txt"; output := "out//./proxy.pac";
       template_dir := None; skip_dedup := true; skip_validation := true |} in
  let normal :=
    {| allow_list := "allow-list.txt"; output := "out/proxy.pac";
       template_dir := None; skip_dedup := true; skip_validation := true |} in
  main w typed = main w normal
  ∧ written (main w typed) = [("out/proxy.pac", proxy_pac_j2 ["a.com"])].
Proof.
  intros w typed normal.
  pose proof (main_paths_normalised w typed normal) as H.
  split; [apply H; reflexivity|].
  rewrite H by reflexivity. by vm_compute.
Defined.
